(** * Verification of the scoring core of the GitHub repository analyzer (src/app.py)

    Shallow embedding of [calculate_repo_score], [evaluate_candidate] and
    [analyze_repo_and_jd_match], with the Python values they manipulate.

    Modelling conventions:
    - Python values produced by [json.loads] are the inductive [pyval]; a
      dict is an association list (lookup takes the first binding).
    - Python exceptions are the [Err] branch of [result].
    - A Python float is an IEEE 754 binary64 value: a finite one is kept as
      the rational number it denotes, infinities and NaN as constructors of
      [pyfloat]. Every float operation and conversion rounds its exact
      result to the nearest binary64 value, ties to even, with overflow to
      an infinity ([b64_round]). The sign of a zero is not kept: no result
      of the modelled code depends on it. One division is kept exact:
      [evaluate_candidate] compares the rational quotient
      [total_score / num_repos] with its thresholds ([py_truediv]).
    - Text is modelled as ASCII strings. *)

From Stdlib Require Import ZArith QArith Qround Qpower Qfield Lqa String Ascii List Bool Lia.
From Stdlib Require Import Permutation Sorted.
Import ListNotations.
Open Scope string_scope.
Set Warnings "-register-all".

(** ** Python runtime fragment *)

Inductive exn : Type :=
| KeyError | TypeError | ValueError | AttributeError
| OverflowError | ZeroDivisionError.

Inductive result (A : Type) : Type :=
| Ok : A -> result A
| Err : exn -> result A.
Arguments Ok {A} _.
Arguments Err {A} _.

Definition bind {A B} (m : result A) (k : A -> result B) : result B :=
  match m with Ok a => k a | Err e => Err e end.

Notation "x <- m ;; k" := (bind m (fun x => k))
  (at level 61, m at next level, right associativity).

(** A Python float: a finite binary64 value as the rational it denotes. *)
Inductive pyfloat : Type :=
| Fin : Q -> pyfloat
| PosInf | NegInf | NaN.

(** Values as returned by [json.loads]. *)
Inductive pyval : Type :=
| PNone
| PBool : bool -> pyval
| PInt : Z -> pyval
| PFloat : pyfloat -> pyval
| PStr : string -> pyval
| PList : list pyval -> pyval
| PDict : list (string * pyval) -> pyval.

Definition pydict := list (string * pyval).

Fixpoint dict_lookup {V} (k : string) (d : list (string * V)) : option V :=
  match d with
  | [] => None
  | (k', v) :: d' => if String.eqb k k' then Some v else dict_lookup k d'
  end.

(** [d[k] = v]: an existing key keeps its position, a new key is appended. *)
Fixpoint dict_set {V} (d : list (string * V)) (k : string) (v : V)
  : list (string * V) :=
  match d with
  | [] => [(k, v)]
  | (k', v') :: d' =>
      if String.eqb k k' then (k', v) :: d' else (k', v') :: dict_set d' k v
  end.

(** [x[k]] *)
Definition py_getitem (x : pyval) (k : string) : result pyval :=
  match x with
  | PDict d => match dict_lookup k d with Some v => Ok v | None => Err KeyError end
  | _ => Err TypeError
  end.

(** [x.get(k, default)] *)
Definition py_get (x : pyval) (k : string) (default : pyval) : result pyval :=
  match x with
  | PDict d => match dict_lookup k d with Some v => Ok v | None => Ok default end
  | _ => Err AttributeError
  end.

(** [len(x)] *)
Definition py_len (x : pyval) : result Z :=
  match x with
  | PStr s => Ok (Z.of_nat (String.length s))
  | PList l => Ok (Z.of_nat (List.length l))
  | PDict d => Ok (Z.of_nat (List.length d))
  | _ => Err TypeError
  end.

(** [str.lower] on ASCII text. *)
Definition lower_char (c : ascii) : ascii :=
  let n := nat_of_ascii c in
  if (65 <=? n)%nat && (n <=? 90)%nat then ascii_of_nat (n + 32) else c.

Fixpoint lower (s : string) : string :=
  match s with
  | EmptyString => EmptyString
  | String c s' => String (lower_char c) (lower s')
  end.

(** [x.lower()]: only strings have the method. *)
Definition py_lower (x : pyval) : result string :=
  match x with
  | PStr s => Ok (lower s)
  | _ => Err AttributeError
  end.

(** *** Float arithmetic *)

(** [round(x)] on a float: ties go to the even neighbour. *)
Definition round_half_even (q : Q) : Z :=
  let f := Qfloor q in
  match Qcompare (q - inject_Z f) (1 # 2) with
  | Lt => f
  | Gt => f + 1
  | Eq => if Z.even f then f else f + 1
  end%Z.

(** [2^e] as a rational. *)
Definition pow2 (e : Z) : Q := Qpower 2 e.

(** [floor(log2 a)] for a positive rational [a]. *)
Definition qlog2 (a : Q) : Z :=
  let k := (Z.log2 (Qnum a) - Z.log2 (Zpos (Qden a)))%Z in
  if Qle_bool (pow2 k) a then k else (k - 1)%Z.

(** Weight of the last of the 53 significant bits of a binary64 number of
    magnitude [a]; below [2^-1022] (subnormal numbers) it stays [2^-1074]. *)
Definition ulp_exp (a : Q) : Z := Z.max (qlog2 a - 52) (-1074).

(** A positive rational rounded to the nearest multiple of its [ulp], ties
    to even, before the exponent range is bounded above. *)
Definition round_pos (a : Q) : Q :=
  let e := ulp_exp a in inject_Z (round_half_even (a / pow2 e)) * pow2 e.

(** Round to nearest, ties to even, into binary64: a magnitude that rounds
    to [2^1024] or beyond overflows to an infinity. *)
Definition b64_round (q : Q) : pyfloat :=
  match Qcompare q 0 with
  | Eq => Fin 0
  | Gt => let r := round_pos q in
          if Qle_bool (pow2 1024) r then PosInf else Fin (Qred r)
  | Lt => let r := round_pos (- q) in
          if Qle_bool (pow2 1024) r then NegInf else Fin (Qred (- r))
  end.

(** The largest finite binary64 value, [(2^53 - 1) * 2^971]. *)
Definition max_float : Q := inject_Z ((2 ^ 53 - 1) * 2 ^ 971).

(** [x + y] on floats. *)
Definition fadd (x y : pyfloat) : pyfloat :=
  match x, y with
  | Fin a, Fin b => b64_round (a + b)
  | NaN, _ | _, NaN => NaN
  | PosInf, NegInf | NegInf, PosInf => NaN
  | PosInf, _ | _, PosInf => PosInf
  | NegInf, _ | _, NegInf => NegInf
  end.

(** [x * y] on floats. *)
Definition fmul (x y : pyfloat) : pyfloat :=
  let inf_times (pos : bool) (a : Q) :=
    match Qcompare a 0 with
    | Eq => NaN
    | Gt => if pos then PosInf else NegInf
    | Lt => if pos then NegInf else PosInf
    end in
  match x, y with
  | Fin a, Fin b => b64_round (a * b)
  | NaN, _ | _, NaN => NaN
  | PosInf, Fin b => inf_times true b
  | NegInf, Fin b => inf_times false b
  | Fin a, PosInf => inf_times true a
  | Fin a, NegInf => inf_times false a
  | PosInf, PosInf | NegInf, NegInf => PosInf
  | PosInf, NegInf | NegInf, PosInf => NegInf
  end.

(** The float literals [0.6] and [0.4] of the source. *)
Definition lit_0_6 : pyfloat := b64_round (6 # 10).
Definition lit_0_4 : pyfloat := b64_round (4 # 10).

(** [float(n)] for an int [n] (also the conversion of an int operand of a
    float operation): correctly rounded; [OverflowError] when the result
    would be infinite. *)
Definition int_to_float (n : Z) : result pyfloat :=
  match b64_round (inject_Z n) with
  | Fin q => Ok (Fin q)
  | _ => Err OverflowError
  end.

(** [round(x)]: infinities raise [OverflowError], NaN raises [ValueError]. *)
Definition py_round (x : pyfloat) : result Z :=
  match x with
  | Fin q => Ok (round_half_even q)
  | PosInf | NegInf => Err OverflowError
  | NaN => Err ValueError
  end.

(** Order of floats other than NaN. *)
Definition fle (x y : pyfloat) : Prop :=
  match x, y with
  | NaN, _ | _, NaN => False
  | NegInf, _ | _, PosInf => True
  | Fin a, Fin b => a <= b
  | _, _ => False
  end.

(** *** [float(x)] on strings *)

(** Characters [str.strip] and [float] treat as white space. *)
Definition is_py_space (c : ascii) : bool :=
  let n := nat_of_ascii c in
  (((9 <=? n) && (n <=? 13)) || ((28 <=? n) && (n <=? 32)))%nat.

Fixpoint drop_space (cs : list ascii) : list ascii :=
  match cs with
  | c :: cs' => if is_py_space c then drop_space cs' else cs
  | [] => []
  end.

(** [s.strip()] on a list of characters. *)
Definition strip_chars (cs : list ascii) : list ascii :=
  rev (drop_space (rev (drop_space cs))).

Definition py_strip (s : string) : string :=
  string_of_list_ascii (strip_chars (list_ascii_of_string s)).

Definition is_digit (c : ascii) : bool :=
  let n := nat_of_ascii c in ((48 <=? n) && (n <=? 57))%nat.

Definition digit_val (c : ascii) : Z := Z.of_nat (nat_of_ascii c - 48)%nat.

Definition digits_value (ds : list Z) : Z :=
  fold_left (fun acc d => acc * 10 + d)%Z ds 0%Z.

(** Digits after the first one of a [digitpart]: a single [_] may separate
    two digits. *)
Fixpoint digits_tail (cs : list ascii) : list Z * list ascii :=
  match cs with
  | [] => ([], [])
  | c :: cs' =>
      if is_digit c then
        let '(ds, r) := digits_tail cs' in (digit_val c :: ds, r)
      else if Ascii.eqb c "_" then
        match cs' with
        | c2 :: cs'' =>
            if is_digit c2 then
              let '(ds, r) := digits_tail cs'' in (digit_val c2 :: ds, r)
            else ([], cs)
        | [] => ([], cs)
        end
      else ([], cs)
  end.

(** [digitpart ::= digit (["_"] digit)*] *)
Definition digitpart (cs : list ascii) : option (list Z * list ascii) :=
  match cs with
  | c :: cs' =>
      if is_digit c then let '(ds, r) := digits_tail cs' in Some (digit_val c :: ds, r)
      else None
  | [] => None
  end.

(** Exponent part [("e" | "E") ["+" | "-"] digitpart]; absent means 0. *)
Definition exponent_part (cs : list ascii) : option Z :=
  match cs with
  | [] => Some 0%Z
  | e :: r =>
      if Ascii.eqb e "e" || Ascii.eqb e "E" then
        let '(neg, r') :=
          match r with
          | s :: r' => if Ascii.eqb s "-" then (true, r')
                       else if Ascii.eqb s "+" then (false, r') else (false, r)
          | [] => (false, r)
          end in
        match digitpart r' with
        | Some (ds, []) => Some (if neg then - digits_value ds else digits_value ds)%Z
        | _ => None
        end
      else None
  end.

(** [m * 10^E] as a rational. *)
Definition scale10 (m E : Z) : Q :=
  if (0 <=? E)%Z then inject_Z (m * 10 ^ E) else Qmake m (Z.to_pos (10 ^ (- E))).

(** [numeric_value ::= digitpart ["." [digitpart]] [exponent]
                      | "." digitpart [exponent]] *)
Definition numeric_value (cs : list ascii) : option Q :=
  let mant :=
    match digitpart cs with
    | Some (ip, r) =>
        match r with
        | c :: r' =>
            if Ascii.eqb c "." then
              match digitpart r' with
              | Some (fp, r'') => Some (ip, fp, r'')
              | None => Some (ip, [], r')
              end
            else Some (ip, [], r)
        | [] => Some (ip, [], r)
        end
    | None =>
        match cs with
        | c :: r' =>
            if Ascii.eqb c "." then
              match digitpart r' with
              | Some (fp, r'') => Some ([], fp, r'')
              | None => None
              end
            else None
        | [] => None
        end
    end in
  match mant with
  | Some (ip, fp, r) =>
      match exponent_part r with
      | Some e =>
          Some (scale10 (digits_value (ip ++ fp)) (e - Z.of_nat (List.length fp)))
      | None => None
      end
  | None => None
  end.

Definition special_value (cs : list ascii) : option pyfloat :=
  let w := lower (string_of_list_ascii cs) in
  if String.eqb w "inf" || String.eqb w "infinity" then Some PosInf
  else if String.eqb w "nan" then Some NaN
  else None.

Definition fneg (x : pyfloat) : pyfloat :=
  match x with
  | Fin q => Fin (- q)
  | PosInf => NegInf
  | NegInf => PosInf
  | NaN => NaN
  end.

(** [float(s)] for a string [s]: the numeral is rounded to the nearest
    binary64 value; one beyond the range gives an infinity, not an error. *)
Definition float_of_string (s : string) : result pyfloat :=
  let cs := strip_chars (list_ascii_of_string s) in
  let '(neg, body) :=
    match cs with
    | c :: r => if Ascii.eqb c "-" then (true, r)
                else if Ascii.eqb c "+" then (false, r) else (false, cs)
    | [] => (false, cs)
    end in
  let v :=
    match special_value body with
    | Some x => Some (if neg then fneg x else x)
    | None => option_map (fun q => b64_round (if neg then - q else q)) (numeric_value body)
    end in
  match v with
  | Some x => Ok x
  | None => Err ValueError
  end.

(** [float(x)] *)
Definition py_float (x : pyval) : result pyfloat :=
  match x with
  | PBool b => Ok (Fin (if b then 1 else 0))
  | PInt z => int_to_float z
  | PFloat f => Ok f
  | PStr s => float_of_string s
  | _ => Err TypeError
  end.

(** ** Scoring engine: [calculate_repo_score] (src/app.py, lines 166-193) *)

Definition complexity_scores : list (string * Z) :=
  [("low", 10); ("medium", 20); ("high", 30); ("unknown", 0)]%Z.

Definition activity_scores : list (string * Z) :=
  [("inactive", 10); ("moderate", 20); ("active", 30); ("unknown", 0)]%Z.

(** [table.get(k, 0)] *)
Definition get_or_zero (table : list (string * Z)) (k : string) : Z :=
  match dict_lookup k table with Some v => v | None => 0%Z end.

(** The five additions to [base_score], in the order of the source. *)
Definition base_score_of (analysis_data : pyval) : result Z :=
  langs <- py_getitem analysis_data "languages" ;;
  n_langs <- py_len langs ;;
  let base_score := (0 + Z.min (n_langs * 2) 10)%Z in
  tech <- py_getitem analysis_data "tech_stack" ;;
  n_tech <- py_len tech ;;
  let base_score := (base_score + Z.min (n_tech * 3) 15)%Z in
  algos <- py_getitem analysis_data "algorithms" ;;
  n_algos <- py_len algos ;;
  let base_score := (base_score + Z.min (n_algos * 3) 15)%Z in
  cx <- py_getitem analysis_data "complexity" ;;
  cx_low <- py_lower cx ;;
  let base_score := (base_score + get_or_zero complexity_scores cx_low)%Z in
  act <- py_getitem analysis_data "commit_activity" ;;
  act_low <- py_lower act ;;
  Ok (base_score + get_or_zero activity_scores act_low)%Z.

Definition calculate_repo_score (analysis_data : pyval) : result Z :=
  base_score <- base_score_of analysis_data ;;
  jd_raw <- py_get analysis_data "jd_match_score" (PInt 0) ;;
  jd_match_score <- py_float jd_raw ;;
  base_float <- int_to_float base_score ;;  (* the int operand of [base_score * 0.6] *)
  let final_score :=
    fadd (fmul base_float lit_0_6) (fmul jd_match_score lit_0_4) in
  py_round final_score.

(** ** Candidate evaluator: [evaluate_candidate] (src/app.py, lines 195-208) *)

Definition unable_label : string := "Unable to evaluate - no repositories found".

(** [total_score / num_repos] (true division), as the exact quotient. *)
Definition py_truediv (x : Q) (n : Z) : result Q :=
  if Z.eqb n 0 then Err ZeroDivisionError else Ok (x / inject_Z n).

Definition evaluate_candidate (total_score : Q) (num_repos : Z) : result string :=
  if Z.eqb num_repos 0 then Ok unable_label
  else
    avg_score <- py_truediv total_score num_repos ;;
    if Qle_bool 75 avg_score then Ok "Highly Suitable"
    else if Qle_bool 50 avg_score then Ok "Moderately Suitable"
    else if Qle_bool 25 avg_score then Ok "Potentially Suitable"
    else Ok "Not Suitable".

(** An analysis record as the LLM is asked to return it. *)
Definition mk_fields (langs tech algos : list string) (cx act : string) (jd : pyval) : pydict :=
  [("languages", PList (map PStr langs)); ("tech_stack", PList (map PStr tech));
         ("algorithms", PList (map PStr algos)); ("complexity", PStr cx);
         ("commit_activity", PStr act); ("jd_match_score", jd);
         ("jd_match_reasons", PList [])].

(** ** [json.loads] *)

(** The double quote and the backslash characters. *)
Abbreviation DQ := (Ascii false true false false false true false false).
Abbreviation BS := (Ascii false false true true true false true false).

Definition is_json_ws (c : ascii) : bool :=
  match nat_of_ascii c with 32%nat | 9%nat | 10%nat | 13%nat => true | _ => false end.

Fixpoint skip_ws (cs : list ascii) : list ascii :=
  match cs with
  | c :: r => if is_json_ws c then skip_ws r else cs
  | [] => []
  end.

Definition hex_val (c : ascii) : option Z :=
  let n := nat_of_ascii c in
  if ((48 <=? n) && (n <=? 57))%nat then Some (Z.of_nat (n - 48))
  else if ((97 <=? n) && (n <=? 102))%nat then Some (Z.of_nat (n - 87))
  else if ((65 <=? n) && (n <=? 70))%nat then Some (Z.of_nat (n - 55))
  else None.

Definition simple_escape (c : ascii) : option ascii :=
  match nat_of_ascii c with
  | 34%nat => Some DQ | 92%nat => Some BS | 47%nat => Some "/"%char
  | 98%nat => Some (ascii_of_nat 8) | 102%nat => Some (ascii_of_nat 12)
  | 110%nat => Some (ascii_of_nat 10) | 114%nat => Some (ascii_of_nat 13)
  | 116%nat => Some (ascii_of_nat 9)
  | _ => None
  end.

(** Body of a JSON string after its opening quote. Control characters are
    refused (strict mode); a [\uXXXX] escape outside ASCII is refused as
    well, since text is modelled as ASCII. *)
Fixpoint jstring (cs : list ascii) : option (string * list ascii) :=
  let cons c rest := option_map (fun '(s, r') => (String c s, r')) rest in
  match cs with
  | [] => None
  | DQ :: r => Some (EmptyString, r)
  | BS :: "u"%char :: h1 :: h2 :: h3 :: h4 :: r =>
      match hex_val h1, hex_val h2, hex_val h3, hex_val h4 with
      | Some a, Some b, Some c, Some d =>
          let n := (((a * 16 + b) * 16 + c) * 16 + d)%Z in
          if (n <? 128)%Z then cons (ascii_of_nat (Z.to_nat n)) (jstring r) else None
      | _, _, _, _ => None
      end
  | BS :: e :: r =>
      match simple_escape e with Some c => cons c (jstring r) | None => None end
  | c :: r => if (nat_of_ascii c <? 32)%nat then None else cons c (jstring r)
  end.

Fixpoint plain_digits (cs : list ascii) : list Z * list ascii :=
  match cs with
  | c :: r =>
      if is_digit c then let '(ds, r') := plain_digits r in (digit_val c :: ds, r')
      else ([], cs)
  | [] => ([], [])
  end.

(** A JSON number: optional minus, then [0] or a non-zero digit followed by
    digits, an optional fraction [.digits] and an optional exponent
    [e|E, optional sign, digits]; an integer without fraction and exponent,
    otherwise the float [float] gives for the same text (an infinity beyond
    the binary64 range). *)
Definition jnumber (cs : list ascii) : option (pyval * list ascii) :=
  let '(neg, r0) :=
    match cs with c :: r => if Ascii.eqb c "-" then (true, r) else (false, cs) | [] => (false, cs) end in
  let ip :=
    match r0 with
    | c :: r1 =>
        if Ascii.eqb c "0" then Some ([0%Z], r1)
        else if is_digit c then let '(ds, r2) := plain_digits r1 in Some (digit_val c :: ds, r2)
        else None
    | [] => None
    end in
  match ip with
  | None => None
  | Some (ids, r1) =>
      let '(frac, r2) :=
        match r1 with
        | c :: d :: r => if Ascii.eqb c "." && is_digit d then
                           let '(fs, r') := plain_digits (d :: r) in (Some fs, r')
                         else (None, r1)
        | _ => (None, r1)
        end in
      let '(ex, r3) :=
        match r2 with
        | c :: r =>
            if Ascii.eqb c "e" || Ascii.eqb c "E" then
              let '(eneg, r') :=
                match r with
                | s :: r' => if Ascii.eqb s "-" then (true, r')
                             else if Ascii.eqb s "+" then (false, r') else (false, r)
                | [] => (false, r)
                end in
              match r' with
              | d :: _ => if is_digit d then
                            let '(es, r'') := plain_digits r' in
                            (Some (if eneg then - digits_value es else digits_value es)%Z, r'')
                          else (None, r2)
              | [] => (None, r2)
              end
            else (None, r2)
        | [] => (None, r2)
        end in
      let sgnZ z := if neg then (- z)%Z else z in
      match frac, ex with
      | None, None => Some (PInt (sgnZ (digits_value ids)), r3)
      | _, _ =>
          let fs := match frac with Some fs => fs | None => [] end in
          let e := match ex with Some e => e | None => 0%Z end in
          let q := scale10 (digits_value (ids ++ fs)) (e - Z.of_nat (List.length fs)) in
          Some (PFloat (b64_round (if neg then - q else q)), r3)
      end
  end.

(** A JSON value after white space, with the extensions [NaN], [Infinity]
    and [-Infinity] that [json.loads] accepts. Objects keep the position of
    the first occurrence of a key and the value of the last one. *)
Fixpoint jvalue (fuel : nat) (cs : list ascii) {struct fuel} : option (pyval * list ascii) :=
  match fuel with
  | O => None
  | S f =>
      match skip_ws cs with
      | DQ :: r => option_map (fun '(s, r') => (PStr s, r')) (jstring r)
      | "{"%char :: r =>
          match skip_ws r with
          | "}"%char :: r' => Some (PDict [], r')
          | r' => jmembers f r' []
          end
      | "["%char :: r =>
          match skip_ws r with
          | "]"%char :: r' => Some (PList [], r')
          | r' => jelements f r' []
          end
      | "n"%char :: "u"%char :: "l"%char :: "l"%char :: r => Some (PNone, r)
      | "t"%char :: "r"%char :: "u"%char :: "e"%char :: r => Some (PBool true, r)
      | "f"%char :: "a"%char :: "l"%char :: "s"%char :: "e"%char :: r => Some (PBool false, r)
      | "N"%char :: "a"%char :: "N"%char :: r => Some (PFloat NaN, r)
      | "I"%char :: "n"%char :: "f"%char :: "i"%char :: "n"%char :: "i"%char :: "t"%char :: "y"%char :: r =>
          Some (PFloat PosInf, r)
      | "-"%char :: "I"%char :: "n"%char :: "f"%char :: "i"%char :: "n"%char :: "i"%char :: "t"%char :: "y"%char :: r =>
          Some (PFloat NegInf, r)
      | cs' => jnumber cs'
      end
  end
with jmembers (fuel : nat) (cs : list ascii) (acc : pydict) {struct fuel}
  : option (pyval * list ascii) :=
  match fuel with
  | O => None
  | S f =>
      match skip_ws cs with
      | DQ :: r =>
          match jstring r with
          | Some (k, r1) =>
              match skip_ws r1 with
              | ":"%char :: r2 =>
                  match jvalue f r2 with
                  | Some (v, r3) =>
                      let acc' := dict_set acc k v in
                      match skip_ws r3 with
                      | ","%char :: r4 => jmembers f r4 acc'
                      | "}"%char :: r4 => Some (PDict acc', r4)
                      | _ => None
                      end
                  | None => None
                  end
              | _ => None
              end
          | None => None
          end
      | _ => None
      end
  end
with jelements (fuel : nat) (cs : list ascii) (acc : list pyval) {struct fuel}
  : option (pyval * list ascii) :=
  match fuel with
  | O => None
  | S f =>
      match jvalue f cs with
      | Some (v, r1) =>
          let acc' := app acc [v] in
          match skip_ws r1 with
          | ","%char :: r2 => jelements f r2 acc'
          | "]"%char :: r2 => Some (PList acc', r2)
          | _ => None
          end
      | None => None
      end
  end.

(** [json.loads(s)]: [None] stands for [JSONDecodeError]. Every nested call
    consumes at least one character, so the fuel never runs out first. *)
Definition json_loads (s : string) : option pyval :=
  let cs := list_ascii_of_string s in
  match jvalue (S (List.length cs)) cs with
  | Some (v, r) => if forallb is_json_ws r then Some v else None
  | None => None
  end.

(** ** LLM analyzer: [analyze_repo_and_jd_match] (src/app.py, lines 110-164) *)

Definition dq : string := String DQ EmptyString.
Definition nl : string := String (ascii_of_nat 10) EmptyString.
Definition quoted (s : string) : string := dq ++ s ++ dq.

(** [sep.join(xs)] *)
Fixpoint py_join (sep : string) (xs : list string) : string :=
  match xs with
  | [] => EmptyString
  | [x] => x
  | x :: xs' => x ++ sep ++ py_join sep xs'
  end.

Fixpoint join_lines (ls : list string) : string :=
  match ls with
  | [] => EmptyString
  | [l] => l
  | l :: ls' => l ++ nl ++ join_lines ls'
  end.

(** [prompt_template.format(readme=..., files=..., commits=..., languages=..., jd=...)] *)
Definition prompt_format (readme files commits languages jd : string) : string :=
  let i8 := "        " in
  let i12 := "            " in
  join_lines
    [ "";
      i8 ++ "You are an AI technical recruiter. Analyze the following GitHub project details and job description:";
      i8; i8 ++ "Job Description:"; i8 ++ jd; i8;
      i8 ++ "Repository Details:";
      i8 ++ "README: " ++ readme;
      i8 ++ "File Structure: " ++ files;
      i8 ++ "Commit Messages: " ++ commits;
      i8 ++ "Languages: " ++ languages;
      i8; i8 ++ "Provide output as structured JSON:";
      i8 ++ "{";
      i12 ++ quoted "languages" ++ ": [" ++ quoted "list of languages" ++ "],";
      i12 ++ quoted "tech_stack" ++ ": [" ++ quoted "list of frameworks & libraries" ++ "],";
      i12 ++ quoted "algorithms" ++ ": [" ++ quoted "list of key algorithms used" ++ "],";
      i12 ++ quoted "complexity" ++ ": " ++ quoted "low/medium/high" ++ ",";
      i12 ++ quoted "commit_activity" ++ ": " ++ quoted "active/moderate/inactive" ++ ",";
      i12 ++ quoted "jd_match_score" ++ ": " ++ quoted "1-100" ++ ",";
      i12 ++ quoted "jd_match_reasons" ++ ": [" ++
        quoted "list of reasons why this repository matches or doesn't match the JD" ++ "]";
      i8 ++ "}";
      i8 ].

(** [s.find(c)] for a one-character [c]: -1 when absent. *)
Fixpoint py_find_aux (c : ascii) (s : string) (i : Z) : Z :=
  match s with
  | EmptyString => (-1)%Z
  | String c' s' => if Ascii.eqb c c' then i else py_find_aux c s' (i + 1)%Z
  end.
Definition py_find (c : ascii) (s : string) : Z := py_find_aux c s 0.

(** [s.rfind(c)] for a one-character [c]: -1 when absent. *)
Fixpoint py_rfind_aux (c : ascii) (s : string) (i best : Z) : Z :=
  match s with
  | EmptyString => best
  | String c' s' => py_rfind_aux c s' (i + 1)%Z (if Ascii.eqb c c' then i else best)
  end.
Definition py_rfind (c : ascii) (s : string) : Z := py_rfind_aux c s 0 (-1).

(** [s[i:j]] with Python's treatment of negative and out-of-range bounds. *)
Definition py_slice (s : string) (i j : Z) : string :=
  let L := Z.of_nat (String.length s) in
  let norm x := if (x <? 0)%Z then Z.max 0 (x + L) else Z.min x L in
  let start := norm i in
  let stop := norm j in
  if (stop <=? start)%Z then EmptyString
  else substring (Z.to_nat start) (Z.to_nat (stop - start)) s.

Definition default_analysis : pyval :=
  PDict [("languages", PList []); ("tech_stack", PList []); ("algorithms", PList []);
         ("complexity", PStr "unknown"); ("commit_activity", PStr "unknown");
         ("jd_match_score", PInt 0); ("jd_match_reasons", PList [])].

(** The LLM is a parameter: [llm p] is the text of [llm.invoke(p)], or
    [None] when the call raises. Every exception raised inside the [try]
    block leads to [default_analysis] (the [st.error] banner is UI output). *)
Definition analyze_repo_and_jd_match (readme : string)
    (file_structure commits languages : list string) (jd : string)
    (llm : string -> option string) : pyval :=
  match llm (prompt_format readme (py_join ", " file_structure)
               (py_join ", " commits) (py_join ", " languages) jd) with
  | None => default_analysis
  | Some response =>
      let json_start := py_find "{" response in
      let json_end := (py_rfind "}" response + 1)%Z in
      match json_loads (py_strip (py_slice response json_start json_end)) with
      | Some json_data => json_data
      | None => default_analysis
      end
  end.

(** ** GitHub fetchers, repository loop, display and summary
    (src/app.py, lines 64-108 and 210-344) *)

(** Exceptions of the application layer: Python exceptions, those of
    [requests] (connection errors, malformed URLs) and Streamlit's
    [StreamlitAPIException]. *)
Inductive app_exn : Type :=
| PyExc : exn -> app_exn
| RequestException
| StreamlitAPIException.

Inductive outcome (A : Type) : Type :=
| Done : A -> outcome A
| Raised : app_exn -> outcome A.
Arguments Done {A} _.
Arguments Raised {A} _.

Definition obind {A B} (m : outcome A) (k : A -> outcome B) : outcome B :=
  match m with Done a => k a | Raised e => Raised e end.

Notation "x <-- m ;; k" := (obind m (fun x => k))
  (at level 61, m at next level, right associativity).

Definition lift {A} (r : result A) : outcome A :=
  match r with Ok a => Done a | Err e => Raised (PyExc e) end.

(** A [requests] response: status code, the value [response.json()]
    decodes ([None] when the body is not JSON) and [response.text]. *)
Record response : Type := mk_response {
  status_code : Z;
  json_body : option pyval;
  resp_text : string }.

(** [response.json()]: requests' [JSONDecodeError] is a [ValueError]. *)
Definition resp_json (r : response) : outcome pyval :=
  match json_body r with Some v => Done v | None => Raised (PyExc ValueError) end.

(** Truth value of a Python object ([if x], [if not x]). *)
Definition py_truthy (x : pyval) : bool :=
  match x with
  | PNone => false
  | PBool b => b
  | PInt z => negb (Z.eqb z 0)
  | PFloat (Fin q) => negb (Qeq_bool q 0)
  | PFloat _ => true
  | PStr s => negb (String.eqb s EmptyString)
  | PList l => negb (Nat.eqb (List.length l) 0)
  | PDict d => negb (Nat.eqb (List.length d) 0)
  end.

(** [for x in v]: a list yields its items, a string its characters, a dict
    its keys; other values are not iterable. *)
Definition py_iter (x : pyval) : result (list pyval) :=
  match x with
  | PList l => Ok l
  | PStr s => Ok (map (fun c => PStr (String c EmptyString)) (list_ascii_of_string s))
  | PDict d => Ok (map (fun kv => PStr (fst kv)) d)
  | _ => Err TypeError
  end.

(** [v[:5]]. Subscripting a dict with a slice raises ([TypeError] up to
    Python 3.11); numbers, booleans and [None] are not subscriptable. *)
Definition py_slice_upto5 (x : pyval) : result pyval :=
  match x with
  | PList l => Ok (PList (firstn 5 l))
  | PStr s => Ok (PStr (substring 0 5 s))
  | _ => Err TypeError
  end.

(** [list(v.keys())]: only dicts have [keys]. *)
Definition py_keys (x : pyval) : result (list pyval) :=
  match x with
  | PDict d => Ok (map (fun kv => PStr (fst kv)) d)
  | _ => Err AttributeError
  end.

(** [[f(x) for x in xs]]: evaluated left to right, the first exception
    propagates. *)
Fixpoint map_result {A B} (f : A -> result B) (xs : list A) : result (list B) :=
  match xs with
  | [] => Ok []
  | x :: xs' => y <- f x ;; ys <- map_result f xs' ;; Ok (y :: ys)
  end.

(** The items [", ".join] accepts: strings only. *)
Fixpoint py_str_list (xs : list pyval) : result (list string) :=
  match xs with
  | [] => Ok []
  | PStr s :: xs' => r <- py_str_list xs' ;; Ok (s :: r)
  | _ :: _ => Err TypeError
  end.

(** [", ".join(v)] for any iterable [v]. *)
Definition py_join_iter (sep : string) (x : pyval) : result string :=
  items <- py_iter x ;; strs <- py_str_list items ;; Ok (py_join sep strs).

Definition upper_char (c : ascii) : ascii :=
  let n := nat_of_ascii c in
  if (97 <=? n)%nat && (n <=? 122)%nat then ascii_of_nat (n - 32) else c.

(** [x.capitalize()]: only strings have the method. *)
Definition py_capitalize (x : pyval) : result string :=
  match x with
  | PStr EmptyString => Ok EmptyString
  | PStr (String c s) => Ok (String (upper_char c) (lower s))
  | _ => Err AttributeError
  end.

(** [st.progress(x)] with a float [x]: Streamlit accepts only
    [0.0 <= x <= 1.0]. *)
Definition st_progress (x : pyfloat) : outcome unit :=
  match x with
  | Fin q => if Qle_bool 0 q && Qle_bool q 1 then Done tt else Raised StreamlitAPIException
  | _ => Raised StreamlitAPIException
  end.

(** [analyze_repo_and_jd_match] on the values [get_repo_details] returns:
    the three [", ".join] calls run inside the [try] block, so an item that
    is not a string leads to the default analysis. *)
Definition analyze_repo_values (readme : string) (file_structure commits languages : list pyval)
    (jd : string) (llm : string -> option string) : pyval :=
  match py_str_list file_structure, py_str_list commits, py_str_list languages with
  | Ok fs, Ok cs, Ok ls => analyze_repo_and_jd_match readme fs cs ls jd llm
  | _, _, _ => default_analysis
  end.

Section GitHub.

(** [requests.get(url, headers=headers)] when [with_headers] holds, plain
    [requests.get(url)] otherwise; [None] when the call raises. *)
Variable http_get : string -> bool -> option response.
(** [str(x)], used by f-strings and by [requests] on a non-string URL. *)
Variable py_str : pyval -> string.

Definition request (url : string) (with_headers : bool) : outcome response :=
  match http_get url with_headers with Some r => Done r | None => Raised RequestException end.

(** [get_github_repos] (lines 64-73); [st.error] is UI output. *)
Definition get_github_repos (username : string) : outcome pyval :=
  response <-- request ("https://api.github.com/users/" ++ username ++ "/repos") true ;;
  if Z.eqb (status_code response) 200 then resp_json response else Done (PList []).

Definition repo_url (username repo_name endpoint : string) : string :=
  "https://api.github.com/repos/" ++ username ++ "/" ++ repo_name ++ "/" ++ endpoint.

(** [get_repo_details] (lines 75-108): README text, the messages of the
    latest five commits, the top-level file names and the languages. *)
Definition get_repo_details (username repo_name : string)
  : outcome (string * list pyval * list pyval * list pyval) :=
  readme_response <-- request (repo_url username repo_name "readme") true ;;
  readme_content <--
    (if Z.eqb (status_code readme_response) 200 then
       j <-- resp_json readme_response ;;
       url <-- lift (py_getitem j "download_url") ;;
       r <-- request (py_str url) false ;;
       Done (resp_text r)
     else Done EmptyString) ;;
  commit_response <-- request (repo_url username repo_name "commits") true ;;
  commit_messages <--
    (if Z.eqb (status_code commit_response) 200 then
       j <-- resp_json commit_response ;;
       latest <-- lift (py_slice_upto5 j) ;;
       items <-- lift (py_iter latest) ;;
       lift (map_result (fun commit => c <- py_getitem commit "commit" ;;
                                       py_getitem c "message") items)
     else Done []) ;;
  content_response <-- request (repo_url username repo_name "contents") true ;;
  file_structure <--
    (if Z.eqb (status_code content_response) 200 then
       j <-- resp_json content_response ;;
       items <-- lift (py_iter j) ;;
       lift (map_result (fun file => py_getitem file "name") items)
     else Done []) ;;
  lang_response <-- request (repo_url username repo_name "languages") true ;;
  languages_used <--
    (if Z.eqb (status_code lang_response) 200 then
       j <-- resp_json lang_response ;;
       lift (py_keys j)
     else Done []) ;;
  Done (readme_content, commit_messages, file_structure, languages_used).

(** Result of [analyze_github_repos]: the bare list [[]] when there is no
    repository, otherwise the pair [(results, total_score)]. *)
Inductive agr_out : Type :=
| AgrEmpty
| AgrPair (results : list (pyval * pyval * Z)) (total_score : Z).

(** The loop body of [analyze_github_repos], from item [idx] on. *)
Fixpoint repos_loop (username jd : string) (llm : string -> option string) (repos : pyval)
    (items : list pyval) (idx : Z) (results : list (pyval * pyval * Z)) (total_score : Z)
  : outcome (list (pyval * pyval * Z) * Z) :=
  match items with
  | [] => Done (results, total_score)
  | repo :: rest =>
      repo_name <-- lift (py_getitem repo "name") ;;
      obind (get_repo_details username (py_str repo_name))
        (fun '(readme, commits, file_structure, languages) =>
           let analysis_data := analyze_repo_values readme file_structure commits languages jd llm in
           repo_score <-- lift (calculate_repo_score analysis_data) ;;
           let total_score' := (total_score + repo_score)%Z in
           let results' := app results [(repo_name, analysis_data, repo_score)] in
           n <-- lift (py_len repos) ;;
           _ <-- st_progress (b64_round (inject_Z (idx + 1) / inject_Z n)) ;;
           repos_loop username jd llm repos rest (idx + 1)%Z results' total_score')
  end.

(** [analyze_github_repos] (lines 233-257). *)
Definition analyze_github_repos (username : string) (llm : string -> option string) (jd : string)
  : outcome agr_out :=
  repos <-- get_github_repos username ;;
  if negb (py_truthy repos) then Done AgrEmpty
  else
    items <-- lift (py_iter repos) ;;
    obind (repos_loop username jd llm repos items 0 [] 0)
      (fun '(results, total_score) => Done (AgrPair results total_score)).

End GitHub.

(** [display_repo_analysis] (lines 210-231). The text written to the page
    is computed as the source computes it; only exceptions are observable. *)
Definition display_repo_analysis (repo_name analysis_data : pyval) (repo_score : Z)
  : outcome unit :=
  langs <-- lift (py_getitem analysis_data "languages") ;;
  _ <-- lift (py_join_iter ", " langs) ;;
  tech <-- lift (py_getitem analysis_data "tech_stack") ;;
  _ <-- (if py_truthy tech then lift (py_join_iter ", " tech) else Done "None detected") ;;
  algos <-- lift (py_getitem analysis_data "algorithms") ;;
  _ <-- (if py_truthy algos then lift (py_join_iter ", " algos) else Done "None detected") ;;
  cx <-- lift (py_getitem analysis_data "complexity") ;;
  _ <-- lift (py_capitalize cx) ;;
  act <-- lift (py_getitem analysis_data "commit_activity") ;;
  _ <-- lift (py_capitalize act) ;;
  _ <-- lift (py_get analysis_data "jd_match_score" (PInt 0)) ;;
  _ <-- st_progress (b64_round (inject_Z repo_score / 100)) ;;
  reasons <-- lift (py_get analysis_data "jd_match_reasons" PNone) ;;
  if py_truthy reasons then
    rs <-- lift (py_getitem analysis_data "jd_match_reasons") ;;
    _ <-- lift (py_iter rs) ;;
    Done tt
  else Done tt.

Fixpoint display_all (xs : list (pyval * pyval * Z)) : outcome unit :=
  match xs with
  | [] => Done tt
  | (repo_name, analysis_data, repo_score) :: xs' =>
      _ <-- display_repo_analysis repo_name analysis_data repo_score ;;
      display_all xs'
  end.

Definition score_of (x : pyval * pyval * Z) : Z := snd x.

(** [sorted(xs, key=lambda x: x[2], reverse=True)]: Python's sort is
    stable, also with [reverse=True], so entries with equal scores keep
    their order. [x] goes after every entry of equal or higher score. *)
Fixpoint insert_desc (x : pyval * pyval * Z) (l : list (pyval * pyval * Z)) :=
  match l with
  | [] => [x]
  | y :: l' => if (score_of y <? score_of x)%Z then x :: l else y :: insert_desc x l'
  end.

Definition sort_by_score_desc (xs : list (pyval * pyval * Z)) : list (pyval * pyval * Z) :=
  fold_left (fun acc x => insert_desc x acc) xs [].

(** What [main] shows once the analysis has run. *)
Inductive main_out : Type :=
| MainNoResults
| MainReport (num_repos : Z) (avg_score : Z) (suitability : string)
             (sorted_analysis : list (pyval * pyval * Z)).

(** [main] (lines 259-344) from the call of [analyze_github_repos] on, once
    the button has been pressed and [initialize_api] has succeeded. The
    "Export Analysis" button is [False] in this run: a Streamlit button is
    [True] only in the rerun its own click triggers. *)
Definition main_report (http_get : string -> bool -> option response) (py_str : pyval -> string)
    (username : string) (llm : string -> option string) (jd : string) : outcome main_out :=
  out <-- analyze_github_repos http_get py_str username llm jd ;;
  match out with
  | AgrEmpty => Raised (PyExc ValueError)  (* [repo_analysis, total_score = []] *)
  | AgrPair repo_analysis total_score =>
      if Nat.eqb (List.length repo_analysis) 0 then Done MainNoResults
      else
        let num_repos := Z.of_nat (List.length repo_analysis) in
        avg_score <--
          (if (0 <? num_repos)%Z
           then lift (py_round (b64_round (inject_Z total_score / inject_Z num_repos)))
           else Done 0%Z) ;;
        suitability <-- lift (evaluate_candidate (inject_Z total_score) num_repos) ;;
        let sorted_analysis := sort_by_score_desc repo_analysis in
        _ <-- display_all sorted_analysis ;;
        Done (MainReport num_repos avg_score suitability sorted_analysis)
  end.

(** ** Statements in the words of the specification *)

(** Case-insensitive comparison of two tier names. *)
Definition ci_eq (s t : string) : bool := String.eqb (lower s) (lower t).

Definition complexity_points (s : string) : Z :=
  if ci_eq s "low" then 10 else if ci_eq s "medium" then 20
  else if ci_eq s "high" then 30 else 0.

Definition activity_points (s : string) : Z :=
  if ci_eq s "inactive" then 10 else if ci_eq s "moderate" then 20
  else if ci_eq s "active" then 30 else 0.

(** Sum of the five factors of section 4.1, from the element counts. *)
Definition spec_base (n_langs n_tech n_algos : nat) (cx act : string) : Z :=
  Z.min (2 * Z.of_nat n_langs) 10 + Z.min (3 * Z.of_nat n_tech) 15
  + Z.min (3 * Z.of_nat n_algos) 15 + complexity_points cx + activity_points act.

(** A numeric JSON value (an integer or a finite float) and its value. *)
Definition as_number (v : pyval) : option Q :=
  match v with
  | PInt z => Some (inject_Z z)
  | PFloat (Fin q) => Some q
  | _ => None
  end.

(** Evaluate [lower] on string literals. *)
(** The five fields [calculate_repo_score] reads with [analysis_data[...]]. *)
Definition subscripted_fields : list string :=
  ["languages"; "tech_stack"; "algorithms"; "complexity"; "commit_activity"].

(** Position of the first occurrence of [c] in [s]. *)
Fixpoint first_index (c : ascii) (s : string) : option nat :=
  match s with
  | EmptyString => None
  | String c' s' => if Ascii.eqb c c' then Some 0%nat else option_map S (first_index c s')
  end.

(** Position of the last occurrence of [c] in [s]. *)
Fixpoint last_index (c : ascii) (s : string) : option nat :=
  match s with
  | EmptyString => None
  | String c' s' =>
      match last_index c s' with
      | Some i => Some (S i)
      | None => if Ascii.eqb c c' then Some 0%nat else None
      end
  end.

(** Section 4.3: the text from the first [{] to the last [}], when both
    exist in this order. *)
Definition located_record (r : string) : option string :=
  match first_index "{" r, last_index "}" r with
  | Some i, Some j => if (i <? j)%nat then Some (substring i (S j - i) r) else None
  | _, _ => None
  end.

(** A decimal numeral: optional minus sign, digits, optional fraction. *)
Definition digit_char (k : nat) : ascii := ascii_of_nat (48 + k).

Definition decimal_spelling (neg : bool) (ds : list nat) (fs : option (list nat)) : string :=
  string_of_list_ascii
    ((if neg then ["-"%char] else []) ++ map digit_char ds ++
     match fs with None => [] | Some f => "."%char :: map digit_char f end).

Definition digits_number (ds : list nat) : Z :=
  fold_left (fun a k => a * 10 + Z.of_nat k)%Z ds 0%Z.

(** The number a decimal numeral spells. *)
Definition decimal_number (neg : bool) (ds : list nat) (fs : option (list nat)) : Q :=
  let v := inject_Z (digits_number ds) +
           match fs with
           | None => 0
           | Some f => inject_Z (digits_number f) / inject_Z (10 ^ Z.of_nat (length f))
           end in
  if neg then - v else v.

(** ** Sample runs *)

(** A GitHub account as the fetchers see it: user [alice] has the
    repositories [proj] (README, six commits, one file, two languages) and
    [tool] (every endpoint answers 404); every other URL answers 404. *)
Definition sample_commit (m : string) : pyval :=
  PDict [("sha", PStr "0"); ("commit", PDict [("message", PStr m)])].

Definition sample_http (url : string) (with_headers : bool) : option response :=
  if String.eqb url "https://api.github.com/users/alice/repos" then
    Some (mk_response 200 (Some (PList [PDict [("name", PStr "proj")];
                                        PDict [("name", PStr "tool")]])) EmptyString)
  else if String.eqb url (repo_url "alice" "proj" "readme") then
    Some (mk_response 200 (Some (PDict [("download_url", PStr "https://raw/proj/README.md")]))
            EmptyString)
  else if String.eqb url "https://raw/proj/README.md" then
    Some (mk_response 200 None "# proj")
  else if String.eqb url (repo_url "alice" "proj" "commits") then
    Some (mk_response 200 (Some (PList (map sample_commit ["a"; "b"; "c"; "d"; "e"; "f"])))
            EmptyString)
  else if String.eqb url (repo_url "alice" "proj" "contents") then
    Some (mk_response 200 (Some (PList [PDict [("name", PStr "app.py")]])) EmptyString)
  else if String.eqb url (repo_url "alice" "proj" "languages") then
    Some (mk_response 200 (Some (PDict [("Python", PInt 1000); ("Shell", PInt 20)])) EmptyString)
  else Some (mk_response 404 (Some (PDict [("message", PStr "Not Found")])) EmptyString).

Definition sample_str (v : pyval) : string :=
  match v with PStr s => s | _ => EmptyString end.

Definition sample_llm (prompt : string) : option string :=
  Some ("Here: {" ++ quoted "languages" ++ ": [" ++ quoted "Python" ++ "], " ++
        quoted "tech_stack" ++ ": [], " ++ quoted "algorithms" ++ ": [], " ++
        quoted "complexity" ++ ": " ++ quoted "high" ++ ", " ++
        quoted "commit_activity" ++ ": " ++ quoted "active" ++ ", " ++
        quoted "jd_match_score" ++ ": 90}").

Definition sample_analysis_dict : pydict :=
  [("languages", PList [PStr "Python"]); ("tech_stack", PList []); ("algorithms", PList []);
   ("complexity", PStr "high"); ("commit_activity", PStr "active");
   ("jd_match_score", PInt 90)].

Definition sample_results : list (pyval * pyval * Z) :=
  [(PStr "proj", PDict sample_analysis_dict, 73%Z);
   (PStr "tool", PDict sample_analysis_dict, 73%Z)].


Example ex66 : calculate_repo_score
  (PDict (mk_fields ["Python"; "JS"] ["Flask"] [] "medium" "active" (PInt 80))) = Ok 66%Z.
Proof. reflexivity. Qed.
Example exH : calculate_repo_score
  (PDict (mk_fields ["Python"; "JS"] ["Flask"] [] "HIGH" "Active" (PStr " 72.5 "))) = Ok 69%Z.
Proof. vm_compute. reflexivity. Qed.
Example exE : evaluate_candidate (3749#10) 5 = Ok "Moderately Suitable".
Proof. reflexivity. Qed.

Example exJ : json_loads (" {" ++ quoted "a" ++ ": [1, 2.5e1, -0.5, true, null], " ++ quoted "a" ++ ":3}  ")
  = Some (PDict [("a", PInt 3)]).
Proof. reflexivity. Qed.
Example exA : analyze_repo_and_jd_match "" [] [] [] "" (fun _ => Some ("Sure! {" ++ quoted "complexity" ++ ": " ++ quoted "High" ++ "} done"))
  = PDict [("complexity", PStr "High")].
Proof. reflexivity. Qed.
Example sample_main_report :
  main_report sample_http sample_str "alice" sample_llm "Python developer" =
    Done (MainReport 2 73 "Moderately Suitable" sample_results).
Proof. vm_compute. reflexivity. Qed.

(** ** Facts about the runtime model *)

Lemma round_half_even_spec (q : Q) :
  inject_Z (round_half_even q) - (1 # 2) <= q <= inject_Z (round_half_even q) + (1 # 2).
Proof.
  unfold round_half_even.
  pose proof (Qfloor_le q) as Hl. pose proof (Qlt_floor q) as Hu.
  rewrite inject_Z_plus in Hu.
  set (f := Qfloor q) in *.
  destruct (Qcompare_spec (q - inject_Z f) (1 # 2)) as [H | H | H].
  - destruct (Z.even f); rewrite ?inject_Z_plus; change (inject_Z 1) with 1 in *; lra.
  - lra.
  - rewrite inject_Z_plus; change (inject_Z 1) with 1 in *; lra.
Qed.

Lemma round_half_even_compat (q1 q2 : Q) :
  q1 == q2 -> round_half_even q1 = round_half_even q2.
Proof.
  intros H. unfold round_half_even.
  assert (Hf : Qfloor q1 = Qfloor q2).
  { apply Z.le_antisymm; apply Qfloor_resp_le; rewrite H; apply Qle_refl. }
  rewrite Hf, H. reflexivity.
Qed.

Lemma round_half_even_bounds (a b : Z) (q : Q) :
  inject_Z a <= q -> q <= inject_Z b ->
  (a <= round_half_even q <= b)%Z.
Proof.
  intros Ha Hb. pose proof (round_half_even_spec q) as [H1 H2].
  set (r := round_half_even q) in *.
  split.
  - apply Z.lt_pred_le. rewrite Zlt_Qlt. unfold Z.pred. rewrite inject_Z_plus.
    change (inject_Z (-1)) with (-1). lra.
  - apply Z.lt_succ_r. rewrite Zlt_Qlt. unfold Z.succ. rewrite inject_Z_plus.
    change (inject_Z 1) with 1. lra.
Qed.

Lemma round_half_even_step (q q' : Q) :
  q + 1 <= q' -> (round_half_even q <= round_half_even q')%Z.
Proof.
  intros H. pose proof (round_half_even_spec q) as [H1 H2].
  pose proof (round_half_even_spec q') as [H3 H4].
  rewrite Zle_Qle. lra.
Qed.

(** *** Binary64 rounding *)

Lemma pow2_pos e : 0 < pow2 e.
Proof. apply Qpower_0_lt. lra. Qed.

Lemma pow2_add x y : pow2 (x + y) == pow2 x * pow2 y.
Proof. apply Qpower_plus. discriminate. Qed.

Lemma pow2_Z e : (0 <= e)%Z -> pow2 e == inject_Z (2 ^ e).
Proof. intros H. unfold pow2. rewrite Zpower_Qpower by exact H. reflexivity. Qed.

Lemma pow2_lt x y : (x < y)%Z -> pow2 x < pow2 y.
Proof. intros H. apply Qpower_lt_compat_l; [exact H | lra]. Qed.

Lemma pow2_le x y : (x <= y)%Z -> pow2 x <= pow2 y.
Proof. intros H. apply Qpower_le_compat_l; [exact H | lra]. Qed.

Lemma pow2_lt_inv x y : pow2 x < pow2 y -> (x < y)%Z.
Proof. intros H. apply (Qpower_lt_compat_l_inv 2); [exact H | lra]. Qed.

Lemma Qmake_div n d : (n # d) == inject_Z n / inject_Z (Zpos d).
Proof. unfold Qeq, Qdiv, Qmult, Qinv, inject_Z. simpl. lia. Qed.

Lemma qlog2_spec a : 0 < a -> pow2 (qlog2 a) <= a < pow2 (qlog2 a + 1).
Proof.
  intros Ha. destruct a as [n d].
  assert (Hn : (0 < n)%Z).
  { unfold Qlt in Ha. simpl in Ha. lia. }
  unfold qlog2. cbn [Qnum Qden].
  set (ln := Z.log2 n). set (ld := Z.log2 (Zpos d)).
  pose proof (Z.log2_spec n Hn) as [Ln1 Ln2].
  pose proof (Z.log2_spec (Zpos d) eq_refl) as [Ld1 Ld2].
  fold ln in Ln1, Ln2. fold ld in Ld1, Ld2.
  assert (Hln : (0 <= ln)%Z) by apply Z.log2_nonneg.
  assert (Hld : (0 <= ld)%Z) by apply Z.log2_nonneg.
  rewrite Zle_Qle, <- !pow2_Z in Ln1, Ld1 by lia.
  rewrite Zlt_Qlt, <- !pow2_Z in Ln2, Ld2 by lia.
  pose proof (Qmake_div n d) as Ea.
  set (N := inject_Z n) in *. set (D := inject_Z (Zpos d)) in *.
  assert (HD : 0 < D) by (unfold D; reflexivity).
  assert (E1 : forall k, pow2 k == pow2 (k - ld) * pow2 ld)
    by (intros k; rewrite <- pow2_add; f_equiv; ring).
  (* lower and upper bounds around 2^(ln - ld) *)
  assert (Lo : pow2 (ln - ld - 1) < n # d).
  { rewrite Ea. apply Qlt_shift_div_l; [exact HD |].
    pose proof (pow2_pos (ln - ld - 1)) as P.
    apply Qlt_le_trans with (pow2 (ln - ld - 1) * pow2 (ld + 1)).
    - apply Qmult_lt_l; [exact P | exact Ld2].
    - rewrite <- pow2_add. replace (ln - ld - 1 + (ld + 1))%Z with ln by ring. exact Ln1. }
  assert (Up : n # d < pow2 (ln - ld + 1)).
  { rewrite Ea. apply Qlt_shift_div_r; [exact HD |].
    pose proof (pow2_pos (ln - ld + 1)) as P.
    apply Qlt_le_trans with (pow2 (ln + 1)); [exact Ln2 |].
    replace (ln + 1)%Z with (ln - ld + 1 + ld)%Z by ring. rewrite pow2_add.
    apply Qmult_le_l; [exact P | exact Ld1]. }
  destruct (Qle_bool (pow2 (ln - ld)) (n # d)) eqn:E.
  - apply Qle_bool_iff in E. split; [exact E | exact Up].
  - split.
    + apply Qlt_le_weak. exact Lo.
    + replace (ln - ld - 1 + 1)%Z with (ln - ld)%Z by ring.
      destruct (Qlt_le_dec (n # d) (pow2 (ln - ld))) as [L | L]; [exact L |].
      apply Qle_bool_iff in L. congruence.
Qed.

Lemma qlog2_le a1 a2 : 0 < a1 -> a1 <= a2 -> (qlog2 a1 <= qlog2 a2)%Z.
Proof.
  intros H1 H12.
  pose proof (qlog2_spec a1 H1) as [A1 _].
  pose proof (qlog2_spec a2 ltac:(lra)) as [_ B2].
  assert (pow2 (qlog2 a1) < pow2 (qlog2 a2 + 1)) as L by lra.
  apply pow2_lt_inv in L. lia.
Qed.

Lemma ulp_exp_le a1 a2 : 0 < a1 -> a1 <= a2 -> (ulp_exp a1 <= ulp_exp a2)%Z.
Proof. intros. unfold ulp_exp. pose proof (qlog2_le a1 a2 H H0). lia. Qed.

(** The scaled magnitude lies below [2^53], and at least [2^52] for a
    normal number. *)
Lemma scaled_upper a : 0 < a -> a / pow2 (ulp_exp a) < inject_Z (2 ^ 53).
Proof.
  intros Ha. pose proof (qlog2_spec a Ha) as [_ U].
  pose proof (pow2_pos (ulp_exp a)) as P.
  apply Qlt_shift_div_r; [exact P |].
  rewrite <- pow2_Z by lia. rewrite <- pow2_add.
  apply Qlt_le_trans with (pow2 (qlog2 a + 1)); [exact U |].
  apply pow2_le. unfold ulp_exp. lia.
Qed.

Lemma scaled_lower a : 0 < a -> (-1074 < ulp_exp a)%Z ->
  inject_Z (2 ^ 52) <= a / pow2 (ulp_exp a).
Proof.
  intros Ha He. pose proof (qlog2_spec a Ha) as [L _].
  pose proof (pow2_pos (ulp_exp a)) as P.
  apply Qle_shift_div_l; [exact P |].
  rewrite <- pow2_Z by lia. rewrite <- pow2_add.
  replace (52 + ulp_exp a)%Z with (qlog2 a) by (unfold ulp_exp in *; lia). exact L.
Qed.

Lemma scaled_nonneg a : 0 < a -> 0 <= a / pow2 (ulp_exp a).
Proof.
  intros Ha. pose proof (pow2_pos (ulp_exp a)).
  apply Qle_shift_div_l; [assumption | lra].
Qed.

Lemma round_half_even_mono q1 q2 : q1 <= q2 -> (round_half_even q1 <= round_half_even q2)%Z.
Proof.
  intros H.
  pose proof (Qfloor_resp_le q1 q2 H) as Hf.
  unfold round_half_even.
  pose proof (Qfloor_le q1) as A1. pose proof (Qlt_floor q1) as B1.
  pose proof (Qfloor_le q2) as A2. pose proof (Qlt_floor q2) as B2.
  rewrite inject_Z_plus in B1, B2. change (inject_Z 1) with 1 in B1, B2.
  set (f1 := Qfloor q1) in *. set (f2 := Qfloor q2) in *.
  destruct (Z.eq_dec f1 f2) as [Ef | Nf].
  - rewrite <- Ef in *.
    destruct (Qcompare_spec (q1 - inject_Z f1) (1 # 2)) as [C1 | C1 | C1];
    destruct (Qcompare_spec (q2 - inject_Z f1) (1 # 2)) as [C2 | C2 | C2];
    try (destruct (Z.even f1)); try lia; exfalso; lra.
  - assert (f1 + 1 <= f2)%Z by lia.
    destruct (Qcompare (q1 - inject_Z f1) (1 # 2));
    destruct (Qcompare (q2 - inject_Z f2) (1 # 2)); try (destruct (Z.even f1));
    try (destruct (Z.even f2)); lia.
Qed.

Lemma round_pos_nonneg a : 0 < a -> 0 <= round_pos a.
Proof.
  intros Ha. unfold round_pos.
  pose proof (pow2_pos (ulp_exp a)) as P.
  pose proof (round_half_even_bounds 0 (2 ^ 53) _ (scaled_nonneg a Ha)
                (Qlt_le_weak _ _ (scaled_upper a Ha))) as [R _].
  rewrite Zle_Qle in R. change (inject_Z 0) with 0 in R.
  apply Qmult_le_0_compat; lra.
Qed.

Lemma round_pos_upper a : 0 < a -> round_pos a <= pow2 (ulp_exp a + 53).
Proof.
  intros Ha. unfold round_pos.
  pose proof (pow2_pos (ulp_exp a)) as P.
  pose proof (round_half_even_bounds 0 (2 ^ 53) _ (scaled_nonneg a Ha)
                (Qlt_le_weak _ _ (scaled_upper a Ha))) as [_ R].
  rewrite Zle_Qle, <- pow2_Z in R by lia.
  rewrite Z.add_comm, pow2_add. apply Qmult_le_r; assumption.
Qed.

Lemma round_pos_lower a : 0 < a -> (-1074 < ulp_exp a)%Z ->
  pow2 (ulp_exp a + 52) <= round_pos a.
Proof.
  intros Ha He. unfold round_pos.
  pose proof (pow2_pos (ulp_exp a)) as P.
  pose proof (round_half_even_bounds (2 ^ 52) (2 ^ 53) _ (scaled_lower a Ha He)
                (Qlt_le_weak _ _ (scaled_upper a Ha))) as [R _].
  rewrite Zle_Qle, <- pow2_Z in R by lia.
  rewrite Z.add_comm, pow2_add. apply Qmult_le_r; assumption.
Qed.

Lemma round_pos_mono a1 a2 : 0 < a1 -> a1 <= a2 -> round_pos a1 <= round_pos a2.
Proof.
  intros H1 H12.
  assert (H2 : 0 < a2) by lra.
  pose proof (ulp_exp_le a1 a2 H1 H12) as Le.
  destruct (Z.eq_dec (ulp_exp a1) (ulp_exp a2)) as [E | N].
  - unfold round_pos. rewrite <- E.
    pose proof (pow2_pos (ulp_exp a1)) as P.
    apply Qmult_le_r; [exact P |].
    rewrite <- Zle_Qle. apply round_half_even_mono.
    apply Qmult_le_r; [apply Qinv_lt_0_compat; exact P | exact H12].
  - apply Qle_trans with (pow2 (ulp_exp a1 + 53)); [apply round_pos_upper; exact H1 |].
    apply Qle_trans with (pow2 (ulp_exp a2 + 52)); [apply pow2_le; lia |].
    apply round_pos_lower; [exact H2 |]. unfold ulp_exp in *. lia.
Qed.

Lemma Qle_bool_false a b : Qle_bool a b = false -> b < a.
Proof.
  intros H. destruct (Qlt_le_dec b a) as [L | L]; [exact L |].
  apply Qle_bool_iff in L. congruence.
Qed.

(** Rounding is monotone, overflow included. *)
Lemma b64_round_mono q1 q2 : q1 <= q2 -> fle (b64_round q1) (b64_round q2).
Proof.
  intros H. unfold b64_round.
  destruct (Qcompare_spec q1 0) as [E1 | L1 | G1];
  destruct (Qcompare_spec q2 0) as [E2 | L2 | G2]; cbv zeta.
  - cbn [fle]. lra.
  - exfalso. lra.
  - destruct (Qle_bool (pow2 1024) (round_pos q2)); cbn [fle]; [exact I |].
    rewrite Qred_correct. apply round_pos_nonneg. exact G2.
  - destruct (Qle_bool (pow2 1024) (round_pos (- q1))); cbn [fle]; [exact I |].
    rewrite Qred_correct. pose proof (round_pos_nonneg (- q1) ltac:(lra)). lra.
  - assert (M : round_pos (- q2) <= round_pos (- q1)) by (apply round_pos_mono; lra).
    destruct (Qle_bool (pow2 1024) (round_pos (- q1))) eqn:T1; cbn [fle];
      [destruct (Qle_bool (pow2 1024) (round_pos (- q2))); exact I |].
    destruct (Qle_bool (pow2 1024) (round_pos (- q2))) eqn:T2; cbn [fle].
    + apply Qle_bool_iff in T2. apply Qle_bool_false in T1. lra.
    + rewrite !Qred_correct. lra.
  - destruct (Qle_bool (pow2 1024) (round_pos (- q1))); cbn [fle];
      [destruct (Qle_bool (pow2 1024) (round_pos q2)); exact I |].
    destruct (Qle_bool (pow2 1024) (round_pos q2)); cbn [fle]; [exact I |].
    rewrite !Qred_correct. pose proof (round_pos_nonneg (- q1) ltac:(lra)).
    pose proof (round_pos_nonneg q2 G2). lra.
  - exfalso. lra.
  - exfalso. lra.
  - assert (M : round_pos q1 <= round_pos q2) by (apply round_pos_mono; lra).
    destruct (Qle_bool (pow2 1024) (round_pos q2)) eqn:T2; cbn [fle];
      [destruct (Qle_bool (pow2 1024) (round_pos q1)); exact I |].
    destruct (Qle_bool (pow2 1024) (round_pos q1)) eqn:T1; cbn [fle].
    + apply Qle_bool_iff in T1. apply Qle_bool_false in T2. lra.
    + rewrite !Qred_correct. exact M.
Qed.

Lemma round_half_even_Z (k : Z) : round_half_even (inject_Z k) = k.
Proof.
  pose proof (round_half_even_bounds k k (inject_Z k) (Qle_refl _) (Qle_refl _)). lia.
Qed.

Lemma qlog2_unique a L : pow2 L <= a < pow2 (L + 1) -> qlog2 a = L.
Proof.
  intros [A B].
  assert (Ha : 0 < a) by (pose proof (pow2_pos L); lra).
  pose proof (qlog2_spec a Ha) as [C D].
  assert (pow2 L < pow2 (qlog2 a + 1)) as X1 by lra.
  assert (pow2 (qlog2 a) < pow2 (L + 1)) as X2 by lra.
  apply pow2_lt_inv in X1, X2. lia.
Qed.

Lemma round_pos_compat a1 a2 : 0 < a1 -> a1 == a2 -> round_pos a1 == round_pos a2.
Proof.
  intros H E. unfold round_pos, ulp_exp.
  assert (L : qlog2 a2 = qlog2 a1).
  { apply qlog2_unique. rewrite <- E. apply qlog2_spec. exact H. }
  rewrite L.
  rewrite (round_half_even_compat (a1 / pow2 (Z.max (qlog2 a1 - 52) (-1074)))
                                  (a2 / pow2 (Z.max (qlog2 a1 - 52) (-1074))));
    [reflexivity |].
  apply Qdiv_comp; [exact E | reflexivity].
Qed.

Lemma Qle_bool_compat a b1 b2 : b1 == b2 -> Qle_bool a b1 = Qle_bool a b2.
Proof.
  intros E. destruct (Qle_bool a b1) eqn:H1; destruct (Qle_bool a b2) eqn:H2; try reflexivity.
  - apply Qle_bool_iff in H1. apply Qle_bool_false in H2. lra.
  - apply Qle_bool_iff in H2. apply Qle_bool_false in H1. lra.
Qed.

Lemma b64_round_compat q1 q2 : q1 == q2 -> b64_round q1 = b64_round q2.
Proof.
  intros E. unfold b64_round.
  rewrite (Qcompare_comp q1 q2 E 0 0 (Qeq_refl 0)).
  destruct (Qcompare_spec q2 0) as [Z2 | L2 | G2]; cbv zeta.
  - reflexivity.
  - assert (R : round_pos (- q1) == round_pos (- q2)) by (apply round_pos_compat; lra).
    rewrite (Qle_bool_compat _ _ _ R).
    destruct (Qle_bool (pow2 1024) (round_pos (- q2))); [reflexivity |].
    f_equal. apply Qred_complete. rewrite R. reflexivity.
  - assert (R : round_pos q1 == round_pos q2) by (apply round_pos_compat; lra).
    rewrite (Qle_bool_compat _ _ _ R).
    destruct (Qle_bool (pow2 1024) (round_pos q2)); [reflexivity |].
    f_equal. apply Qred_complete. exact R.
Qed.

Lemma round_pos_max a : 0 < a -> round_pos a < pow2 1024 -> round_pos a <= max_float.
Proof.
  intros Ha Hr. unfold round_pos in *.
  set (e := ulp_exp a) in *.
  set (m := round_half_even (a / pow2 e)) in *.
  pose proof (round_half_even_bounds 0 (2 ^ 53) _ (scaled_nonneg a Ha)
                (Qlt_le_weak _ _ (scaled_upper a Ha))) as [M0 M1].
  fold e m in M0, M1.
  assert (P971 : pow2 971 == inject_Z (2 ^ 971)) by (apply pow2_Z; lia).
  unfold max_float. rewrite inject_Z_mult, <- P971.
  destruct (Z.le_gt_cases e 970) as [Le | Gt].
  - apply Qle_trans with (inject_Z (2 ^ 53) * pow2 e).
    + apply Qmult_le_r; [apply pow2_pos | rewrite <- Zle_Qle; exact M1].
    + rewrite <- pow2_Z by lia. rewrite <- pow2_add.
      apply Qle_trans with (pow2 1023); [apply pow2_le; lia |].
      rewrite !pow2_Z by lia. rewrite <- inject_Z_mult, <- Zle_Qle.
      vm_compute. discriminate.
  - assert (Pe : pow2 e == inject_Z (2 ^ (e - 971)) * pow2 971).
    { rewrite <- pow2_Z by lia. rewrite <- pow2_add. f_equiv. ring. }
    rewrite Pe in *. rewrite Qmult_assoc, <- inject_Z_mult in *.
    apply Qmult_le_r; [apply pow2_pos |]. rewrite <- Zle_Qle.
    assert (1024 = 53 + 971)%Z as E1024 by reflexivity.
    rewrite E1024, pow2_add, (pow2_Z 53) in Hr by lia.
    apply Qmult_lt_r in Hr; [| apply pow2_pos]. rewrite <- Zlt_Qlt in Hr. lia.
Qed.

(** A finite result of rounding never exceeds [max_float] in magnitude. *)
Lemma b64_round_finite_bound q y : b64_round q = Fin y -> - max_float <= y <= max_float.
Proof.
  unfold b64_round. intros H.
  destruct (Qcompare_spec q 0) as [Z0 | L0 | G0]; cbv zeta in H.
  - injection H as <-. unfold max_float. split; [| vm_compute; discriminate].
    vm_compute. discriminate.
  - destruct (Qle_bool (pow2 1024) (round_pos (- q))) eqn:T; [discriminate |].
    assert (Y : y = Qred (- round_pos (- q))) by congruence. subst y.
    pose proof (Qred_correct (- round_pos (- q))).
    apply Qle_bool_false in T.
    pose proof (round_pos_max (- q) ltac:(lra) T).
    pose proof (round_pos_nonneg (- q) ltac:(lra)).
    assert (0 <= max_float) by (vm_compute; discriminate). lra.
  - destruct (Qle_bool (pow2 1024) (round_pos q)) eqn:T; [discriminate |].
    assert (Y : y = Qred (round_pos q)) by congruence. subst y.
    pose proof (Qred_correct (round_pos q)).
    apply Qle_bool_false in T.
    pose proof (round_pos_max q G0 T).
    pose proof (round_pos_nonneg q G0).
    assert (0 <= max_float) by (vm_compute; discriminate). lra.
Qed.

Lemma Qred_inject_Z z : Qred (inject_Z z) = inject_Z z.
Proof.
  unfold Qred, inject_Z. cbn [Qnum Qden].
  pose proof (Z.ggcd_gcd z 1) as G. pose proof (Z.ggcd_correct_divisors z 1) as D.
  destruct (Z.ggcd z 1) as [g [a b]]. cbn [fst snd] in *.
  rewrite Z.gcd_1_r in G. subst g. destruct D as [D1 D2].
  rewrite Z.mul_1_l in D1, D2. subst. reflexivity.
Qed.

(** Integers below [2^53] are binary64 values. *)
Lemma b64_round_int z : (0 <= z < 2 ^ 53)%Z -> b64_round (inject_Z z) = Fin (inject_Z z).
Proof.
  intros Hz. unfold b64_round.
  destruct (Z.eq_dec z 0) as [-> | Nz]; [reflexivity |].
  assert (Pz : 0 < inject_Z z) by (change 0 with (inject_Z 0); rewrite <- Zlt_Qlt; lia).
  rewrite (proj1 (Qgt_alt _ _) Pz). cbv zeta.
  pose proof (qlog2_spec _ Pz) as [A B].
  set (L := qlog2 (inject_Z z)) in *.
  assert (HL : (0 <= L <= 52)%Z).
  { split.
    - assert (pow2 0 < pow2 (L + 1)) as X.
      { apply Qle_lt_trans with (inject_Z z); [| exact B].
        change (pow2 0) with (inject_Z 1). rewrite <- Zle_Qle. lia. }
      apply pow2_lt_inv in X. lia.
    - assert (pow2 L < pow2 53) as X.
      { apply Qle_lt_trans with (inject_Z z); [exact A |].
        rewrite pow2_Z by lia. rewrite <- Zlt_Qlt. lia. }
      apply pow2_lt_inv in X. lia. }
  assert (Hr : round_pos (inject_Z z) == inject_Z z).
  { unfold round_pos, ulp_exp. fold L.
    replace (Z.max (L - 52) (-1074)) with (- (52 - L))%Z by lia.
    assert (Hs : inject_Z z / pow2 (- (52 - L)) == inject_Z (z * 2 ^ (52 - L))).
    { rewrite inject_Z_mult, <- pow2_Z by lia. unfold pow2. rewrite Qpower_opp.
      unfold Qdiv. rewrite Qinv_involutive. reflexivity. }
    rewrite (round_half_even_compat _ _ Hs), round_half_even_Z.
    rewrite inject_Z_mult, <- pow2_Z by lia. rewrite <- Qmult_assoc, <- pow2_add.
    replace (52 - L + - (52 - L))%Z with 0%Z by ring. change (pow2 0) with 1. ring. }
  rewrite (Qle_bool_compat _ _ _ Hr).
  replace (Qle_bool (pow2 1024) (inject_Z z)) with false.
  - f_equal. rewrite (Qred_complete _ _ Hr). apply Qred_inject_Z.
  - symmetry. apply Bool.not_true_iff_false. intros T. apply Qle_bool_iff in T.
    rewrite pow2_Z in T by lia. rewrite <- Zle_Qle in T. lia.
Qed.

Lemma int_to_float_small z : (0 <= z < 2 ^ 53)%Z -> int_to_float z = Ok (Fin (inject_Z z)).
Proof. intros H. unfold int_to_float. rewrite b64_round_int by exact H. reflexivity. Qed.

Lemma fle_between a b x : fle (Fin a) x -> fle x (Fin b) -> exists y, x = Fin y /\ a <= y <= b.
Proof. destruct x as [y | | |]; cbn [fle]; try tauto. intros. exists y. auto. Qed.

Lemma lit_0_6_value : lit_0_6 = Fin (5404319552844595 # 9007199254740992).
Proof. vm_compute. reflexivity. Qed.

Lemma lit_0_4_value : lit_0_4 = Fin (3602879701896397 # 9007199254740992).
Proof. vm_compute. reflexivity. Qed.

(** [base * 0.6] for a base score in [0, 100] lies in [0, 60], and grows
    with the base. *)
Lemma mul_0_6_range (b : Z) : (0 <= b <= 100)%Z ->
  exists x, fmul (Fin (inject_Z b)) lit_0_6 = Fin x /\ 0 <= x <= 60.
Proof.
  intros Hb. rewrite lit_0_6_value. cbn [fmul].
  destruct Hb as [H0 H1]. rewrite Zle_Qle in H0, H1. change (inject_Z 0) with 0 in H0.
  apply fle_between.
  - change (Fin 0) with (b64_round 0). apply b64_round_mono.
    apply Qmult_le_0_compat; [exact H0 | vm_compute; discriminate].
  - replace (Fin 60) with (b64_round (100 * (5404319552844595 # 9007199254740992)))
      by (vm_compute; reflexivity).
    apply b64_round_mono. change (inject_Z 100) with 100 in H1. lra.
Qed.

Lemma mul_0_6_mono (b b' : Z) x x' : (b <= b')%Z ->
  fmul (Fin (inject_Z b)) lit_0_6 = Fin x -> fmul (Fin (inject_Z b')) lit_0_6 = Fin x' -> x <= x'.
Proof.
  intros Hb E E'. rewrite lit_0_6_value in E, E'. cbn [fmul] in E, E'.
  rewrite Zle_Qle in Hb.
  pose proof (b64_round_mono (inject_Z b * (5404319552844595 # 9007199254740992))
                (inject_Z b' * (5404319552844595 # 9007199254740992)) ltac:(lra)) as M.
  rewrite E, E' in M. exact M.
Qed.

(** [jd * 0.4] for a finite [jd] in [0, 100] lies in [0, 40]. *)
Lemma mul_0_4_range (j : Q) : 0 <= j <= 100 ->
  exists y, fmul (Fin j) lit_0_4 = Fin y /\ 0 <= y <= 40.
Proof.
  intros Hj. rewrite lit_0_4_value. cbn [fmul].
  apply fle_between.
  - change (Fin 0) with (b64_round 0). apply b64_round_mono. lra.
  - replace (Fin 40) with (b64_round (100 * (3602879701896397 # 9007199254740992)))
      by (vm_compute; reflexivity).
    apply b64_round_mono. lra.
Qed.

(** The final formula for a base score in [0, 100] and a [jd_match_score]
    in [0, 100] returns an integer in [0, 100]. *)
Lemma final_score_range (b : Z) (j : Q) : (0 <= b <= 100)%Z -> 0 <= j <= 100 ->
  exists n, py_round (fadd (fmul (Fin (inject_Z b)) lit_0_6) (fmul (Fin j) lit_0_4)) = Ok n /\
            (0 <= n <= 100)%Z.
Proof.
  intros Hb Hj.
  destruct (mul_0_6_range b Hb) as (x & -> & Hx).
  destruct (mul_0_4_range j Hj) as (y & -> & Hy).
  cbn [fadd].
  destruct (fle_between 0 100 (b64_round (x + y))) as (s & Es & Hs).
  - change (Fin 0) with (b64_round 0). apply b64_round_mono. lra.
  - replace (Fin 100) with (b64_round 100) by (vm_compute; reflexivity).
    apply b64_round_mono. lra.
  - rewrite Es. cbn [py_round]. eexists; split; [reflexivity |].
    apply round_half_even_bounds; change (inject_Z 0) with 0; change (inject_Z 100) with 100;
      lra.
Qed.

(** With the [jd_match_score] fixed, a larger base score (in [0, 100]) never
    gives a smaller final score, and never makes [round] raise where it did
    not. *)
Lemma final_score_mono (b b' : Z) (j : pyfloat) (n : Z) :
  (0 <= b <= b')%Z -> (b' <= 100)%Z ->
  py_round (fadd (fmul (Fin (inject_Z b)) lit_0_6) (fmul j lit_0_4)) = Ok n ->
  exists n', py_round (fadd (fmul (Fin (inject_Z b')) lit_0_6) (fmul j lit_0_4)) = Ok n' /\
             (n <= n')%Z.
Proof.
  intros Hb Hb' H.
  destruct (mul_0_6_range b ltac:(lia)) as (x & Ex & Hx).
  destruct (mul_0_6_range b' ltac:(lia)) as (x' & Ex' & Hx').
  pose proof (mul_0_6_mono b b' x x' ltac:(lia) Ex Ex') as Hxx.
  rewrite Ex in H. rewrite Ex'.
  rewrite lit_0_4_value in H |- *.
  destruct j as [q | | |]; [| vm_compute in H; discriminate ..].
  cbn [fmul] in H |- *.
  destruct (b64_round (q * (3602879701896397 # 9007199254740992))) as [y | | |] eqn:Ey;
    [| cbn in H; discriminate ..].
  pose proof (b64_round_finite_bound _ _ Ey) as Hy.
  cbn [fadd] in H |- *.
  destruct (b64_round (x + y)) as [s | | |] eqn:Es; [| cbn in H; discriminate ..].
  cbn [py_round] in H. injection H as <-.
  destruct (fle_between s max_float (b64_round (x' + y))) as (s' & Es' & Hs').
  - rewrite <- Es. apply b64_round_mono. lra.
  - replace (Fin max_float) with (b64_round (60 + max_float)) by (vm_compute; reflexivity).
    apply b64_round_mono. lra.
  - rewrite Es'. cbn [py_round]. eexists; split; [reflexivity |].
    apply round_half_even_mono. lra.
Qed.

Lemma dict_lookup_set_same {V} (d : list (string * V)) k v :
  dict_lookup k (dict_set d k v) = Some v.
Proof.
  induction d as [| [k' v'] d IH]; simpl.
  - rewrite String.eqb_refl. reflexivity.
  - destruct (String.eqb k k') eqn:E; simpl.
    + apply String.eqb_eq in E. subst. rewrite String.eqb_refl. reflexivity.
    + rewrite E. exact IH.
Qed.

Lemma dict_lookup_set_other {V} (d : list (string * V)) k k2 v :
  k2 <> k -> dict_lookup k2 (dict_set d k v) = dict_lookup k2 d.
Proof.
  intros Hne. induction d as [| [k' v'] d IH]; simpl.
  - destruct (String.eqb k2 k) eqn:E; [apply String.eqb_eq in E; congruence | reflexivity].
  - destruct (String.eqb k k') eqn:E; simpl.
    + apply String.eqb_eq in E. subst.
      destruct (String.eqb k2 k') eqn:E2; [apply String.eqb_eq in E2; congruence | reflexivity].
    + destruct (String.eqb k2 k'); [reflexivity | exact IH].
Qed.

Lemma py_len_nonneg x n : py_len x = Ok n -> (0 <= n)%Z.
Proof. destruct x; simpl; intros H; inversion H; lia. Qed.

Lemma complexity_scores_range k : (0 <= get_or_zero complexity_scores k <= 30)%Z.
Proof.
  unfold get_or_zero, complexity_scores; simpl.
  destruct (String.eqb k "low"); [lia |].
  destruct (String.eqb k "medium"); [lia |].
  destruct (String.eqb k "high"); [lia |].
  destruct (String.eqb k "unknown"); lia.
Qed.

Lemma activity_scores_range k : (0 <= get_or_zero activity_scores k <= 30)%Z.
Proof.
  unfold get_or_zero, activity_scores; simpl.
  destruct (String.eqb k "inactive"); [lia |].
  destruct (String.eqb k "moderate"); [lia |].
  destruct (String.eqb k "active"); [lia |].
  destruct (String.eqb k "unknown"); lia.
Qed.

(** Every base score the engine computes lies in [0, 100]. *)
Lemma base_score_of_range x b : base_score_of x = Ok b -> (0 <= b <= 100)%Z.
Proof.
  unfold base_score_of, bind.
  destruct (py_getitem x "languages") as [l|]; [| discriminate].
  destruct (py_len l) as [n1|] eqn:E1; [| discriminate].
  destruct (py_getitem x "tech_stack") as [t|]; [| discriminate].
  destruct (py_len t) as [n2|] eqn:E2; [| discriminate].
  destruct (py_getitem x "algorithms") as [a|]; [| discriminate].
  destruct (py_len a) as [n3|] eqn:E3; [| discriminate].
  destruct (py_getitem x "complexity") as [c|]; [| discriminate].
  destruct (py_lower c) as [cl|]; [| discriminate].
  destruct (py_getitem x "commit_activity") as [ac|]; [| discriminate].
  destruct (py_lower ac) as [al|]; [| discriminate].
  intros H; inversion H; subst.
  apply py_len_nonneg in E1, E2, E3.
  pose proof (complexity_scores_range cl). pose proof (activity_scores_range al).
  lia.
Qed.

(** Unfolding of [calculate_repo_score] once the base score is known: the
    base score, an int in [0, 100], converts to a float exactly. *)
Lemma calculate_repo_score_base x b :
  base_score_of x = Ok b ->
  calculate_repo_score x =
    (jd_raw <- py_get x "jd_match_score" (PInt 0) ;;
     jd <- py_float jd_raw ;;
     py_round (fadd (fmul (Fin (inject_Z b)) lit_0_6) (fmul jd lit_0_4))).
Proof.
  intros H. pose proof (base_score_of_range _ _ H) as Hr.
  unfold calculate_repo_score. rewrite H. cbn [bind].
  destruct (py_get x "jd_match_score" (PInt 0)) as [v |]; [| reflexivity]. cbn [bind].
  destruct (py_float v) as [j |]; [| reflexivity]. cbn [bind].
  rewrite int_to_float_small by lia. reflexivity.
Qed.

Ltac lower_literals :=
  repeat match goal with
  | |- context [lower (String ?c ?r)] =>
      let t := eval vm_compute in (lower (String c r)) in
      change (lower (String c r)) with t
  end.

Lemma complexity_points_code s :
  get_or_zero complexity_scores (lower s) = complexity_points s.
Proof.
  unfold get_or_zero, complexity_scores, complexity_points, ci_eq; lower_literals; simpl.
  destruct (String.eqb (lower s) "low"); [reflexivity |].
  destruct (String.eqb (lower s) "medium"); [reflexivity |].
  destruct (String.eqb (lower s) "high"); [reflexivity |].
  destruct (String.eqb (lower s) "unknown"); reflexivity.
Qed.

Lemma activity_points_code s :
  get_or_zero activity_scores (lower s) = activity_points s.
Proof.
  unfold get_or_zero, activity_scores, activity_points, ci_eq; lower_literals; simpl.
  destruct (String.eqb (lower s) "inactive"); [reflexivity |].
  destruct (String.eqb (lower s) "moderate"); [reflexivity |].
  destruct (String.eqb (lower s) "active"); [reflexivity |].
  destruct (String.eqb (lower s) "unknown"); reflexivity.
Qed.

(** With the five classification fields present and well typed, the base
    score is the sum of the specification. *)
Lemma base_score_of_fields d (ls ts als : list pyval) (cx act : string) :
  dict_lookup "languages" d = Some (PList ls) ->
  dict_lookup "tech_stack" d = Some (PList ts) ->
  dict_lookup "algorithms" d = Some (PList als) ->
  dict_lookup "complexity" d = Some (PStr cx) ->
  dict_lookup "commit_activity" d = Some (PStr act) ->
  base_score_of (PDict d) = Ok (spec_base (length ls) (length ts) (length als) cx act).
Proof.
  intros H1 H2 H3 H4 H5.
  unfold base_score_of, py_getitem, bind.
  rewrite H1, H2, H3, H4, H5. simpl.
  rewrite complexity_points_code, activity_points_code.
  unfold spec_base. f_equal. lia.
Qed.

(** ** Claims *)

(** C1. With all six classification fields present (three lists, two tier
    strings, and a [jd_match_score] that [float] accepts), [score] returns
    [round(base_score * 0.6 + jd_match_score * 0.4)], where [base_score]
    sums the capped counts and the case-insensitive tier points, and the
    products and the sum are Python's binary64 float operations on the
    float literals [0.6] and [0.4]. *)
Theorem calculate_repo_score_formula d (ls ts als : list pyval) (cx act : string) v jd :
  dict_lookup "languages" d = Some (PList ls) ->
  dict_lookup "tech_stack" d = Some (PList ts) ->
  dict_lookup "algorithms" d = Some (PList als) ->
  dict_lookup "complexity" d = Some (PStr cx) ->
  dict_lookup "commit_activity" d = Some (PStr act) ->
  dict_lookup "jd_match_score" d = Some v ->
  py_float v = Ok jd ->
  calculate_repo_score (PDict d) =
    py_round (fadd (fmul (Fin (inject_Z (spec_base (length ls) (length ts) (length als) cx act)))
                         lit_0_6)
                   (fmul jd lit_0_4)).
Proof.
  intros H1 H2 H3 H4 H5 Hv Hj.
  rewrite (calculate_repo_score_base _ _ (base_score_of_fields d ls ts als cx act H1 H2 H3 H4 H5)).
  unfold py_get. rewrite Hv. cbn [bind]. rewrite Hj. reflexivity.
Qed.

(** One language and a [jd_match_score] of 13.25: the exact value
    [2 * 0.6 + 13.25 * 0.4] is 6.5, but the float sum is
    6.500000000000001, and [round] gives 7. *)
Lemma calculate_repo_score_formula_witness :
  calculate_repo_score
    (PDict (mk_fields ["Python"] [] [] "none" "none" (PFloat (Fin (53 # 4))))) = Ok 7%Z.
Proof.
  rewrite (calculate_repo_score_formula
             (mk_fields ["Python"] [] [] "none" "none" (PFloat (Fin (53 # 4))))
             [PStr "Python"] [] [] "none" "none" (PFloat (Fin (53 # 4))) (Fin (53 # 4)))
    by reflexivity.
  vm_compute. reflexivity.
Defined.

(** C2. For [repo_count > 0], [evaluate] maps the average
    [total_score / repo_count] to the first tier whose inclusive lower bound
    75, 50 or 25 it reaches, and to "Not Suitable" below 25. *)
Theorem evaluate_candidate_tiers (total_score : Q) (repo_count : Z) :
  (0 < repo_count)%Z ->
  let avg := total_score / inject_Z repo_count in
  (75 <= avg -> evaluate_candidate total_score repo_count = Ok "Highly Suitable") /\
  (50 <= avg -> avg < 75 -> evaluate_candidate total_score repo_count = Ok "Moderately Suitable") /\
  (25 <= avg -> avg < 50 -> evaluate_candidate total_score repo_count = Ok "Potentially Suitable") /\
  (avg < 25 -> evaluate_candidate total_score repo_count = Ok "Not Suitable").
Proof.
  intros Hpos avg.
  assert (Hev : evaluate_candidate total_score repo_count =
            if Qle_bool 75 avg then Ok "Highly Suitable"
            else if Qle_bool 50 avg then Ok "Moderately Suitable"
            else if Qle_bool 25 avg then Ok "Potentially Suitable"
            else Ok "Not Suitable").
  { unfold evaluate_candidate, py_truediv, bind.
    destruct (Z.eqb_spec repo_count 0); [lia | reflexivity]. }
  rewrite Hev.
  assert (Hf : forall a b, b < a -> Qle_bool a b = false).
  { intros a b H. destruct (Qle_bool a b) eqn:E; [| reflexivity].
    apply Qle_bool_iff in E. exfalso. apply (Qlt_not_le b a); assumption. }
  repeat split; intros.
  - apply Qle_bool_iff in H. rewrite H. reflexivity.
  - rewrite Hf by assumption. apply Qle_bool_iff in H. rewrite H. reflexivity.
  - rewrite !Hf by lra. apply Qle_bool_iff in H. rewrite H. reflexivity.
  - rewrite !Hf by lra. reflexivity.
Qed.

Lemma evaluate_candidate_tiers_witness :
  evaluate_candidate 375 5 = Ok "Highly Suitable" /\
  evaluate_candidate (3749 # 10) 5 = Ok "Moderately Suitable" /\
  evaluate_candidate 125 5 = Ok "Potentially Suitable" /\
  evaluate_candidate 124 5 = Ok "Not Suitable".
Proof.
  split; [apply (evaluate_candidate_tiers 375 5); [lia | vm_compute; discriminate] |].
  split; [apply (evaluate_candidate_tiers (3749 # 10) 5); [lia | vm_compute; discriminate | reflexivity] |].
  split; [apply (evaluate_candidate_tiers 125 5); [lia | vm_compute; discriminate | reflexivity] |].
  apply (evaluate_candidate_tiers 124 5); [lia | reflexivity].
Defined.

(** C6. With no repositories, [evaluate] returns the "unable to evaluate"
    sentinel, different from the four labels, and raises no
    [ZeroDivisionError] (the division would). *)
Theorem evaluate_candidate_no_repos (total_score : Q) :
  evaluate_candidate total_score 0 = Ok unable_label /\
  py_truediv total_score 0 = Err ZeroDivisionError /\
  unable_label <> "Highly Suitable" /\ unable_label <> "Moderately Suitable" /\
  unable_label <> "Potentially Suitable" /\ unable_label <> "Not Suitable".
Proof. repeat split; try reflexivity; discriminate. Qed.

(** C7. With all fields present and a numeric [jd_match_score] in [0, 100],
    the base component is at most 100 and the final score lies in [0, 100]. *)
Theorem score_bounded d (ls ts als : list pyval) (cx act : string) v q :
  dict_lookup "languages" d = Some (PList ls) ->
  dict_lookup "tech_stack" d = Some (PList ts) ->
  dict_lookup "algorithms" d = Some (PList als) ->
  dict_lookup "complexity" d = Some (PStr cx) ->
  dict_lookup "commit_activity" d = Some (PStr act) ->
  dict_lookup "jd_match_score" d = Some v ->
  as_number v = Some q -> 0 <= q <= 100 ->
  (exists b, base_score_of (PDict d) = Ok b /\ (b <= 100)%Z) /\
  (exists n, calculate_repo_score (PDict d) = Ok n /\ (0 <= n <= 100)%Z).
Proof.
  intros H1 H2 H3 H4 H5 Hv Hq Hrange.
  pose proof (base_score_of_fields d ls ts als cx act H1 H2 H3 H4 H5) as Hb.
  set (b := spec_base (length ls) (length ts) (length als) cx act) in *.
  pose proof (base_score_of_range _ _ Hb) as Hbr.
  split; [exists b; split; [exact Hb | lia] |].
  rewrite (calculate_repo_score_base _ _ Hb).
  unfold py_get. rewrite Hv.
  assert (Hf : py_float v = Ok (Fin q)).
  { destruct v as [| | z | [f | | |] | | |]; simpl in Hq; try discriminate;
      injection Hq as <-; [| reflexivity].
    destruct Hrange as [H0 H100].
    change 0 with (inject_Z 0) in H0. change 100 with (inject_Z 100) in H100.
    rewrite <- Zle_Qle in H0, H100.
    cbn [py_float]. apply int_to_float_small. lia. }
  cbn [bind]. rewrite Hf. cbn [bind].
  exact (final_score_range b q Hbr Hrange).
Qed.

Lemma score_bounded_witness :
  (exists b, base_score_of (PDict (mk_fields ["Python"; "JS"] ["Flask"] [] "medium" "active" (PInt 80))) = Ok b /\ (b <= 100)%Z) /\
  (exists n, calculate_repo_score (PDict (mk_fields ["Python"; "JS"] ["Flask"] [] "medium" "active" (PInt 80))) = Ok n /\ (0 <= n <= 100)%Z).
Proof.
  apply (score_bounded (mk_fields ["Python"; "JS"] ["Flask"] [] "medium" "active" (PInt 80))
           [PStr "Python"; PStr "JS"] [PStr "Flask"] [] "medium" "active" (PInt 80) 80);
    try reflexivity; vm_compute; split; discriminate.
Defined.

Lemma py_get_jd_set_other d k v :
  k <> "jd_match_score" ->
  py_get (PDict (dict_set d k v)) "jd_match_score" (PInt 0) = py_get (PDict d) "jd_match_score" (PInt 0).
Proof. intros H. unfold py_get. rewrite dict_lookup_set_other by congruence. reflexivity. Qed.

(** Adding one element to a [tech_stack] list of fewer than five elements
    adds 3 to the base score. *)
Lemma base_score_of_tech_grow d l x b :
  dict_lookup "tech_stack" d = Some (PList l) -> (length l < 5)%nat ->
  base_score_of (PDict d) = Ok b ->
  base_score_of (PDict (dict_set d "tech_stack" (PList (app l [x])))) = Ok (b + 3)%Z.
Proof.
  intros Ht Hl H.
  unfold base_score_of, py_getitem, bind in *.
  rewrite (dict_lookup_set_other d "tech_stack" "languages"),
    (dict_lookup_set_other d "tech_stack" "algorithms"),
    (dict_lookup_set_other d "tech_stack" "complexity"),
    (dict_lookup_set_other d "tech_stack" "commit_activity") by discriminate.
  rewrite dict_lookup_set_same. rewrite Ht in H. cbn [py_len] in *.
  repeat match type of H with
         | context [match ?e with _ => _ end] => destruct e eqn:?; try discriminate
         end.
  injection H as <-. f_equal.
  rewrite length_app. simpl length. lia.
Qed.

(** C8. While [tech_stack] has fewer than five elements, adding one element
    (other fields unchanged) never decreases the score. *)
Theorem tech_stack_monotone d (l : list pyval) (x : pyval) (n : Z) :
  dict_lookup "tech_stack" d = Some (PList l) -> (length l < 5)%nat ->
  calculate_repo_score (PDict d) = Ok n ->
  exists n', calculate_repo_score (PDict (dict_set d "tech_stack" (PList (app l [x])))) = Ok n'
             /\ (n <= n')%Z.
Proof.
  intros Ht Hl H.
  destruct (base_score_of (PDict d)) as [b | e] eqn:Hb;
    [| unfold calculate_repo_score in H; rewrite Hb in H; discriminate].
  pose proof (base_score_of_tech_grow d l x b Ht Hl Hb) as Hb'.
  pose proof (base_score_of_range _ _ Hb) as Hr.
  pose proof (base_score_of_range _ _ Hb') as Hr'.
  rewrite (calculate_repo_score_base _ _ Hb) in H.
  rewrite (calculate_repo_score_base _ _ Hb').
  rewrite py_get_jd_set_other by discriminate.
  destruct (py_get (PDict d) "jd_match_score" (PInt 0)) as [v |]; [| discriminate].
  cbn [bind] in *.
  destruct (py_float v) as [j |]; [| discriminate].
  cbn [bind] in *.
  exact (final_score_mono b (b + 3) j n ltac:(lia) ltac:(lia) H).
Qed.

Lemma tech_stack_monotone_witness :
  exists n', calculate_repo_score
    (PDict (dict_set (mk_fields ["Python"; "JS"] ["Flask"] [] "medium" "active" (PInt 80))
              "tech_stack" (PList (app [PStr "Flask"] [PStr "Redis"])))) = Ok n' /\ (66 <= n')%Z.
Proof.
  apply (tech_stack_monotone (mk_fields ["Python"; "JS"] ["Flask"] [] "medium" "active" (PInt 80))
           [PStr "Flask"] (PStr "Redis") 66); [reflexivity | cbn; lia | reflexivity].
Defined.

(** C5 (as stated: the score lies in [0, 100] even for a [jd_match_score]
    outside [0, 100]) fails: the unclamped value 1000 gives 400. *)
Lemma score_range_counterexample :
  ~ (forall d n, calculate_repo_score (PDict d) = Ok n -> (0 <= n <= 100)%Z).
Proof.
  intros H.
  specialize (H (mk_fields [] [] [] "unknown" "unknown" (PInt 1000)) 400%Z eq_refl).
  lia.
Qed.

(** C5, amended. When [float(jd_match_score)] (absent counting as 0) lies
    in [0, 100], every score returned normally lies in [0, 100]. *)
Theorem score_range_jd_in_range d (n : Z) (q : Q) :
  py_float (match dict_lookup "jd_match_score" d with Some v => v | None => PInt 0 end) = Ok (Fin q) ->
  0 <= q <= 100 ->
  calculate_repo_score (PDict d) = Ok n -> (0 <= n <= 100)%Z.
Proof.
  intros Hq Hrange H.
  destruct (base_score_of (PDict d)) as [b | e] eqn:Hb;
    [| unfold calculate_repo_score in H; rewrite Hb in H; discriminate].
  pose proof (base_score_of_range _ _ Hb) as Hr.
  rewrite (calculate_repo_score_base _ _ Hb) in H.
  unfold py_get in H.
  destruct (final_score_range b q Hr Hrange) as (m & Em & Hm).
  destruct (dict_lookup "jd_match_score" d) as [v |]; cbn [bind] in H; rewrite Hq in H;
    cbn [bind] in H; rewrite Em in H; injection H as <-; exact Hm.
Qed.

Lemma score_range_jd_in_range_witness :
  (0 <= 66 <= 100)%Z.
Proof.
  apply (score_range_jd_in_range (mk_fields ["Python"; "JS"] ["Flask"] [] "medium" "active" (PInt 80))
           66 80); [reflexivity | vm_compute; split; discriminate | reflexivity].
Defined.

Lemma base_score_of_set_jd d v :
  base_score_of (PDict (dict_set d "jd_match_score" v)) = base_score_of (PDict d).
Proof.
  unfold base_score_of, py_getitem.
  rewrite (dict_lookup_set_other d "jd_match_score" "languages"),
    (dict_lookup_set_other d "jd_match_score" "tech_stack"),
    (dict_lookup_set_other d "jd_match_score" "algorithms"),
    (dict_lookup_set_other d "jd_match_score" "complexity"),
    (dict_lookup_set_other d "jd_match_score" "commit_activity") by discriminate.
  reflexivity.
Qed.

(** C3 (as stated: an unparsable [jd_match_score] counts as 0 and [score]
    never raises) fails: [float("N/A")] and [float("1-100")] raise
    [ValueError], which [calculate_repo_score] does not catch. *)
Lemma jd_unparsable_counterexample :
  calculate_repo_score (PDict (mk_fields ["Python"] [] [] "low" "active" (PStr "N/A")))
    = Err ValueError /\
  calculate_repo_score (PDict (mk_fields ["Python"] [] [] "low" "active" (PStr "1-100")))
    = Err ValueError.
Proof. split; vm_compute; reflexivity. Qed.

(** C3, amended. With the other five fields well formed, an absent
    [jd_match_score] counts as 0 and [score] returns normally; a present
    value that [float] rejects makes [score] raise that error. *)
Theorem jd_absent_or_unparsable d (ls ts als : list pyval) (cx act : string) :
  dict_lookup "languages" d = Some (PList ls) ->
  dict_lookup "tech_stack" d = Some (PList ts) ->
  dict_lookup "algorithms" d = Some (PList als) ->
  dict_lookup "complexity" d = Some (PStr cx) ->
  dict_lookup "commit_activity" d = Some (PStr act) ->
  (dict_lookup "jd_match_score" d = None ->
     calculate_repo_score (PDict d) =
       calculate_repo_score (PDict (dict_set d "jd_match_score" (PInt 0))) /\
     exists n, calculate_repo_score (PDict d) = Ok n) /\
  (forall v e, dict_lookup "jd_match_score" d = Some v -> py_float v = Err e ->
     calculate_repo_score (PDict d) = Err e).
Proof.
  intros H1 H2 H3 H4 H5.
  pose proof (base_score_of_fields d ls ts als cx act H1 H2 H3 H4 H5) as Hb.
  pose proof Hb as Hb'. rewrite <- (base_score_of_set_jd d (PInt 0)) in Hb'.
  split.
  - intros Hn.
    rewrite (calculate_repo_score_base _ _ Hb), (calculate_repo_score_base _ _ Hb').
    unfold py_get. rewrite Hn, dict_lookup_set_same.
    split; [reflexivity |].
    destruct (final_score_range _ 0 (base_score_of_range _ _ Hb) ltac:(lra)) as (n & En & _).
    exists n. exact En.
  - intros v e Hv He.
    rewrite (calculate_repo_score_base _ _ Hb).
    unfold py_get. rewrite Hv. cbn [bind]. rewrite He. reflexivity.
Qed.

Lemma jd_absent_or_unparsable_witness :
  let d := [("languages", PList [PStr "Python"]); ("tech_stack", PList []);
            ("algorithms", PList []); ("complexity", PStr "Low");
            ("commit_activity", PStr "ACTIVE")] in
  (dict_lookup "jd_match_score" d = None ->
     calculate_repo_score (PDict d) =
       calculate_repo_score (PDict (dict_set d "jd_match_score" (PInt 0))) /\
     exists n, calculate_repo_score (PDict d) = Ok n) /\
  (forall v e, dict_lookup "jd_match_score" d = Some v -> py_float v = Err e ->
     calculate_repo_score (PDict d) = Err e).
Proof.
  intros d.
  apply (jd_absent_or_unparsable d [PStr "Python"] [] [] "Low" "ACTIVE"); reflexivity.
Defined.

(** A record on which the base score is computed has all five subscripted
    fields. *)
Lemma base_score_of_has_fields d b :
  base_score_of (PDict d) = Ok b ->
  forall k, In k subscripted_fields -> dict_lookup k d <> None.
Proof.
  intros H k Hin Hk. unfold base_score_of, py_getitem, bind in H.
  simpl in Hin.
  destruct Hin as [<- | [<- | [<- | [<- | [<- | []]]]]]; rewrite Hk in H;
    repeat (cbv beta iota in H;
            first [ discriminate
                  | match type of H with
                    | context [match ?e with _ => _ end] => destruct e
                    end ]).
Qed.

(** C4 (as stated: missing fields are filled with defaults before scoring)
    fails: a response that parses as a record is returned as it is, and
    [score] raises [KeyError] on the missing [tech_stack]. *)
Lemma missing_fields_counterexample :
  let response := "```json" ++ nl ++ "{" ++ quoted "languages" ++ ": [" ++ quoted "Python" ++
                  "], " ++ quoted "jd_match_score" ++ ": 70}" ++ nl ++ "```" in
  let analysis := analyze_repo_and_jd_match "" [] [] [] "" (fun _ => Some response) in
  analysis = PDict [("languages", PList [PStr "Python"]); ("jd_match_score", PInt 70)] /\
  calculate_repo_score analysis = Err KeyError.
Proof. split; vm_compute; reflexivity. Qed.

(** C4, amended. A response that parses as a record reaches the scoring
    engine unchanged, with no field filled in; [score] raises on it when any
    of the five subscripted fields is missing, and a missing
    [jd_match_score] alone is defaulted to 0, by [score] itself. *)
Theorem parsed_record_passed_through readme (file_structure commits languages : list string)
    (jd : string) (llm : string -> option string) (response : string) (d : pydict) :
  llm (prompt_format readme (py_join ", " file_structure) (py_join ", " commits)
         (py_join ", " languages) jd) = Some response ->
  json_loads (py_strip (py_slice response (py_find "{" response) (py_rfind "}" response + 1)))
    = Some (PDict d) ->
  analyze_repo_and_jd_match readme file_structure commits languages jd llm = PDict d /\
  (forall k, In k subscripted_fields -> dict_lookup k d = None ->
     exists e, calculate_repo_score (PDict d) = Err e) /\
  (dict_lookup "jd_match_score" d = None ->
     calculate_repo_score (PDict d) =
       calculate_repo_score (PDict (dict_set d "jd_match_score" (PInt 0)))).
Proof.
  intros Hllm Hjson. split; [| split].
  - unfold analyze_repo_and_jd_match. rewrite Hllm. cbv beta iota zeta. rewrite Hjson. reflexivity.
  - intros k Hin Hk.
    destruct (base_score_of (PDict d)) as [b | e] eqn:Hb.
    + exfalso. exact (base_score_of_has_fields d b Hb k Hin Hk).
    + exists e. unfold calculate_repo_score. rewrite Hb. reflexivity.
  - intros Hn. unfold calculate_repo_score. rewrite base_score_of_set_jd.
    destruct (base_score_of (PDict d)) as [b | e]; [| reflexivity].
    unfold bind, py_get. rewrite Hn, dict_lookup_set_same. reflexivity.
Qed.

(** Two partial records: one with the five subscripted fields but no
    [jd_match_score], one with only [languages] and [jd_match_score]. *)
Lemma parsed_record_passed_through_witness :
  let r1 := "{" ++ quoted "languages" ++ ": [" ++ quoted "Python" ++ "], " ++
            quoted "tech_stack" ++ ": [], " ++ quoted "algorithms" ++ ": [], " ++
            quoted "complexity" ++ ": " ++ quoted "low" ++ ", " ++
            quoted "commit_activity" ++ ": " ++ quoted "active" ++ "}" in
  let d1 := [("languages", PList [PStr "Python"]); ("tech_stack", PList []);
             ("algorithms", PList []); ("complexity", PStr "low");
             ("commit_activity", PStr "active")] in
  let r2 := "```json" ++ nl ++ "{" ++ quoted "languages" ++ ": [" ++ quoted "Python" ++
            "], " ++ quoted "jd_match_score" ++ ": 70}" ++ nl ++ "```" in
  let d2 := [("languages", PList [PStr "Python"]); ("jd_match_score", PInt 70)] in
  (analyze_repo_and_jd_match "" [] [] [] "" (fun _ => Some r1) = PDict d1 /\
   (forall k, In k subscripted_fields -> dict_lookup k d1 = None ->
      exists e, calculate_repo_score (PDict d1) = Err e) /\
   (dict_lookup "jd_match_score" d1 = None ->
      calculate_repo_score (PDict d1) =
        calculate_repo_score (PDict (dict_set d1 "jd_match_score" (PInt 0))))) /\
  (analyze_repo_and_jd_match "" [] [] [] "" (fun _ => Some r2) = PDict d2 /\
   (forall k, In k subscripted_fields -> dict_lookup k d2 = None ->
      exists e, calculate_repo_score (PDict d2) = Err e) /\
   (dict_lookup "jd_match_score" d2 = None ->
      calculate_repo_score (PDict d2) =
        calculate_repo_score (PDict (dict_set d2 "jd_match_score" (PInt 0))))).
Proof.
  intros r1 d1 r2 d2. split.
  - apply (parsed_record_passed_through "" [] [] [] "" (fun _ => Some r1) r1 d1);
      [reflexivity | vm_compute; reflexivity].
  - apply (parsed_record_passed_through "" [] [] [] "" (fun _ => Some r2) r2 d2);
      [reflexivity | vm_compute; reflexivity].
Defined.

(** The first record of the witness above is scored with its
    [jd_match_score] taken as 0: [round(42 * 0.6)] is 25. *)
Example parsed_record_jd_default :
  calculate_repo_score
    (PDict [("languages", PList [PStr "Python"]); ("tech_stack", PList []);
            ("algorithms", PList []); ("complexity", PStr "low");
            ("commit_activity", PStr "active")]) = Ok 25%Z.
Proof. vm_compute. reflexivity. Qed.

(** *** Locating the record in the LLM response *)

Lemma py_find_aux_first c s k :
  py_find_aux c s k =
    match first_index c s with Some i => (k + Z.of_nat i)%Z | None => (-1)%Z end.
Proof.
  revert k. induction s as [| c' s IH]; intros k; simpl; [reflexivity |].
  destruct (Ascii.eqb c c'); [lia |].
  rewrite IH. destruct (first_index c s); simpl; [lia | reflexivity].
Qed.

Lemma py_rfind_aux_last c s k best :
  py_rfind_aux c s k best =
    match last_index c s with Some i => (k + Z.of_nat i)%Z | None => best end.
Proof.
  revert k best. induction s as [| c' s IH]; intros k best; simpl; [reflexivity |].
  rewrite IH. destruct (last_index c s); [lia |].
  destruct (Ascii.eqb c c'); [lia | reflexivity].
Qed.

Lemma length_list_ascii_of_string s :
  length (list_ascii_of_string s) = String.length s.
Proof. induction s; simpl; congruence. Qed.

Lemma first_index_nth c s i :
  first_index c s = Some i -> nth_error (list_ascii_of_string s) i = Some c.
Proof.
  revert i. induction s as [| c' s IH]; intros i H; simpl in *; [discriminate |].
  destruct (Ascii.eqb c c') eqn:E.
  - injection H as <-. apply Ascii.eqb_eq in E. subst. reflexivity.
  - destruct (first_index c s) as [i' |]; simpl in H; [| discriminate].
    injection H as <-. apply IH. reflexivity.
Qed.

Lemma last_index_nth c s i :
  last_index c s = Some i -> nth_error (list_ascii_of_string s) i = Some c.
Proof.
  revert i. induction s as [| c' s IH]; intros i H; simpl in *; [discriminate |].
  destruct (last_index c s) as [i' |].
  - injection H as <-. apply IH. reflexivity.
  - destruct (Ascii.eqb c c') eqn:E; [| discriminate].
    injection H as <-. apply Ascii.eqb_eq in E. subst. reflexivity.
Qed.

Lemma nth_error_lt {A} (l : list A) n a : nth_error l n = Some a -> (n < length l)%nat.
Proof. intros H. apply nth_error_Some. congruence. Qed.

Lemma list_ascii_of_substring n m s :
  list_ascii_of_string (substring n m s) = firstn m (skipn n (list_ascii_of_string s)).
Proof.
  revert n m. induction s as [| c s IH]; intros n m.
  - destruct n, m; reflexivity.
  - destruct n as [| n], m as [| m]; simpl; try reflexivity.
    + rewrite IH. simpl. reflexivity.
    + rewrite IH. reflexivity.
    + rewrite IH. reflexivity.
Qed.

Lemma firstn_S_nth {A} (l : list A) k b :
  nth_error l k = Some b -> firstn (S k) l = app (firstn k l) [b].
Proof.
  revert k. induction l as [| a l IH]; intros k H; [destruct k; discriminate |].
  destruct k as [| k]; simpl in *.
  - injection H as ->. reflexivity.
  - rewrite (IH k H). reflexivity.
Qed.

Lemma strip_chars_id cs a rest init b :
  cs = a :: rest -> cs = app init [b] ->
  is_py_space a = false -> is_py_space b = false -> strip_chars cs = cs.
Proof.
  intros H1 H2 Ha Hb. unfold strip_chars.
  assert (E1 : drop_space cs = cs) by (rewrite H1; simpl; rewrite Ha; reflexivity).
  rewrite E1, H2, rev_app_distr. simpl. rewrite Hb. simpl.
  rewrite rev_involutive. reflexivity.
Qed.

Lemma py_strip_id s :
  strip_chars (list_ascii_of_string s) = list_ascii_of_string s -> py_strip s = s.
Proof. intros H. unfold py_strip. rewrite H. apply string_of_list_ascii_of_string. Qed.

Lemma list_ascii_of_string_inj s t :
  list_ascii_of_string s = list_ascii_of_string t -> s = t.
Proof.
  intros H. rewrite <- (string_of_list_ascii_of_string s), <- (string_of_list_ascii_of_string t).
  congruence.
Qed.

Ltac slice_cases :=
  unfold py_slice; cbv beta zeta;
  repeat match goal with
         | |- context [(?x <? ?y)%Z] => destruct (Z.ltb_spec x y)
         | |- context [(?x <=? ?y)%Z] => destruct (Z.leb_spec x y)
         end;
  try lia.

(** C9. The analyzer parses the text from the first [{] to the last [}] of
    the LLM response; when the LLM call raises, when no such text exists, or
    when parsing fails, it returns exactly [default_analysis] (empty lists,
    "unknown" tiers, [jd_match_score] 0, no reasons). *)
Theorem analyze_locates_record readme (file_structure commits languages : list string)
    (jd : string) (llm : string -> option string) :
  analyze_repo_and_jd_match readme file_structure commits languages jd llm =
    match llm (prompt_format readme (py_join ", " file_structure) (py_join ", " commits)
                 (py_join ", " languages) jd) with
    | None => default_analysis
    | Some response =>
        match located_record response with
        | Some text => match json_loads text with Some v => v | None => default_analysis end
        | None => default_analysis
        end
    end.
Proof.
  unfold analyze_repo_and_jd_match.
  destruct (llm _) as [r |]; [| reflexivity].
  cbv beta iota zeta.
  unfold py_find, py_rfind. rewrite py_find_aux_first, py_rfind_aux_last.
  unfold located_record.
  destruct (first_index "{" r) as [i |] eqn:Hi; destruct (last_index "}" r) as [j |] eqn:Hj.
  - pose proof (first_index_nth _ _ _ Hi) as Ni. pose proof (last_index_nth _ _ _ Hj) as Nj.
    pose proof (nth_error_lt _ _ _ Ni) as Li. pose proof (nth_error_lt _ _ _ Nj) as Lj.
    rewrite length_list_ascii_of_string in Li, Lj.
    destruct (Nat.ltb_spec i j) as [Hij | Hji].
    + match goal with
      | |- context [py_slice r ?a ?b] =>
          assert (Hs : py_slice r a b = substring i (S j - i) r)
            by (slice_cases; f_equal; lia)
      end.
      rewrite Hs, py_strip_id; [reflexivity |].
      rewrite list_ascii_of_substring.
      remember (skipn i (list_ascii_of_string r)) as l eqn:El.
      assert (N0 : nth_error l 0 = Some "{"%char)
        by (rewrite El, nth_error_skipn, Nat.add_0_r; exact Ni).
      assert (Nk : nth_error l (j - i) = Some "}"%char)
        by (rewrite El, nth_error_skipn; replace (i + (j - i))%nat with j by lia; exact Nj).
      replace (S j - i)%nat with (S (j - i)) by lia.
      destruct l as [| a l']; [discriminate |].
      simpl in N0. injection N0 as ->.
      apply (strip_chars_id _ "{"%char (firstn (j - i) l') (firstn (j - i) ("{"%char :: l'))
               "}"%char); [reflexivity | apply firstn_S_nth; exact Nk | reflexivity | reflexivity].
    + assert (j <> i) by (intros ->; congruence).
      match goal with
      | |- context [py_slice r ?a ?b] =>
          assert (Hs : py_slice r a b = EmptyString) by (slice_cases; reflexivity)
      end.
      rewrite Hs. reflexivity.
  - pose proof (first_index_nth _ _ _ Hi) as Ni. pose proof (nth_error_lt _ _ _ Ni) as Li.
    rewrite length_list_ascii_of_string in Li.
    match goal with
    | |- context [py_slice r ?a ?b] =>
        assert (Hs : py_slice r a b = EmptyString) by (slice_cases; reflexivity)
    end.
    rewrite Hs. reflexivity.
  - pose proof (last_index_nth _ _ _ Hj) as Nj. pose proof (nth_error_lt _ _ _ Nj) as Lj.
    rewrite length_list_ascii_of_string in Lj.
    destruct (Nat.eq_dec (S j) (String.length r)) as [Hend | Hend].
    + match goal with
      | |- context [py_slice r ?a ?b] =>
          assert (Hs : py_slice r a b = substring j 1 r) by (slice_cases; f_equal; lia)
      end.
      assert (Hsub : substring j 1 r = "}").
      { apply list_ascii_of_string_inj. rewrite list_ascii_of_substring.
        rewrite (firstn_S_nth _ 0 "}"%char); [reflexivity |].
        rewrite nth_error_skipn, Nat.add_0_r. exact Nj. }
      rewrite Hs, Hsub. reflexivity.
    + match goal with
      | |- context [py_slice r ?a ?b] =>
          assert (Hs : py_slice r a b = EmptyString) by (slice_cases; reflexivity)
      end.
      rewrite Hs. reflexivity.
  - match goal with
    | |- context [py_slice r ?a ?b] =>
        assert (Hs : py_slice r a b = EmptyString) by (slice_cases; reflexivity)
    end.
    rewrite Hs. reflexivity.
Qed.

(** *** [float] on decimal numerals *)

Lemma digit_char_facts k :
  (k < 10)%nat ->
  is_digit (digit_char k) = true /\ digit_val (digit_char k) = Z.of_nat k /\
  is_py_space (digit_char k) = false /\ Ascii.eqb (digit_char k) "_" = false /\
  Ascii.eqb (digit_char k) "-" = false /\ Ascii.eqb (digit_char k) "+" = false.
Proof.
  intros Hk.
  do 10 (destruct k as [| k]; [repeat split; reflexivity |]). lia.
Qed.

Lemma special_value_digit k rest :
  (k < 10)%nat -> special_value (digit_char k :: rest) = None.
Proof.
  intros Hk. do 10 (destruct k as [| k]; [reflexivity |]). lia.
Qed.

Lemma digits_tail_spell ds tail :
  Forall (fun k => (k < 10)%nat) ds ->
  (tail = [] \/ exists t, tail = "."%char :: t) ->
  digits_tail (map digit_char ds ++ tail)%list = (map Z.of_nat ds, tail).
Proof.
  intros Hds Ht. induction Hds as [| k ds Hk _ IH].
  - destruct Ht as [-> | [t ->]]; reflexivity.
  - destruct (digit_char_facts k Hk) as (H1 & H2 & _).
    cbn [map app]. remember (digit_char k) as c eqn:Ec. clear Ec.
    cbn [digits_tail]. rewrite H1, IH, H2. reflexivity.
Qed.

Lemma digitpart_spell ds tail :
  ds <> [] -> Forall (fun k => (k < 10)%nat) ds ->
  (tail = [] \/ exists t, tail = "."%char :: t) ->
  digitpart (map digit_char ds ++ tail)%list = Some (map Z.of_nat ds, tail).
Proof.
  intros Hne Hds Ht. destruct ds as [| k ds]; [congruence |].
  inversion Hds as [| ? ? Hk Hds']; subst.
  destruct (digit_char_facts k Hk) as (H1 & H2 & _).
  cbn [map app]. remember (digit_char k) as c eqn:Ec. clear Ec.
  unfold digitpart. rewrite H1, (digits_tail_spell ds tail Hds' Ht), H2. reflexivity.
Qed.

Lemma digits_value_acc (l : list Z) (a : Z) :
  fold_left (fun acc d => acc * 10 + d)%Z l a =
    (a * 10 ^ Z.of_nat (length l) + fold_left (fun acc d => acc * 10 + d)%Z l 0)%Z.
Proof.
  revert a. induction l as [| d l IH]; intros a; cbn [fold_left length]; [lia |].
  rewrite (IH (a * 10 + d)%Z), (IH (0 * 10 + d)%Z).
  rewrite Nat2Z.inj_succ, Z.pow_succ_r by lia. ring.
Qed.

Lemma digits_value_app (l1 l2 : list Z) :
  digits_value (l1 ++ l2)%list =
    (digits_value l1 * 10 ^ Z.of_nat (length l2) + digits_value l2)%Z.
Proof. unfold digits_value. rewrite fold_left_app. apply digits_value_acc. Qed.

Lemma digits_number_value ds : digits_number ds = digits_value (map Z.of_nat ds).
Proof.
  unfold digits_number, digits_value. generalize 0%Z.
  induction ds as [| k ds IH]; intros a; simpl; [reflexivity | apply IH].
Qed.

Lemma scale10_neg_exponent m (k : nat) :
  scale10 m (0 - Z.of_nat k) == inject_Z m / inject_Z (10 ^ Z.of_nat k).
Proof.
  unfold scale10.
  destruct k as [| k].
  - simpl. rewrite Z.mul_1_r. change (inject_Z 1) with 1. field.
  - destruct (Z.leb_spec 0 (0 - Z.of_nat (S k))) as [H | H]; [lia |].
    rewrite Qmake_Qdiv. replace (- (0 - Z.of_nat (S k)))%Z with (Z.of_nat (S k)) by lia.
    rewrite Z2Pos.id; [reflexivity |].
    apply Z.pow_pos_nonneg; lia.
Qed.

Lemma nospace_spell ds :
  Forall (fun k => (k < 10)%nat) ds -> Forall (fun c => is_py_space c = false) (map digit_char ds).
Proof.
  intros H. induction H; constructor; [apply digit_char_facts; assumption | assumption].
Qed.

Lemma strip_chars_nospace cs :
  Forall (fun c => is_py_space c = false) cs -> strip_chars cs = cs.
Proof.
  intros H. unfold strip_chars.
  assert (D : forall l, Forall (fun c => is_py_space c = false) l -> drop_space l = l).
  { intros l Hl. destruct Hl as [| c l Hc _]; simpl; [reflexivity | rewrite Hc; reflexivity]. }
  rewrite (D cs H), D; [apply rev_involutive |].
  apply Forall_rev. exact H.
Qed.

(** [float] of a decimal numeral is the number it spells, rounded to
    binary64. *)
Lemma float_of_decimal neg ds fs :
  ds <> [] -> Forall (fun k => (k < 10)%nat) ds ->
  Forall (fun k => (k < 10)%nat) (match fs with Some f => f | None => [] end) ->
  float_of_string (decimal_spelling neg ds fs) = Ok (b64_round (decimal_number neg ds fs)).
Proof.
  intros Hne Hds Hfs.
  set (tail := match fs with None => [] | Some f => "."%char :: map digit_char f end).
  set (fp := match fs with Some f => f | None => [] end).
  assert (Htail : tail = [] \/ exists t, tail = "."%char :: t)
    by (unfold tail; destruct fs; [right; eexists; reflexivity | left; reflexivity]).
  assert (Hnum : numeric_value (map digit_char ds ++ tail)%list =
            Some (scale10 (digits_value (map Z.of_nat ds ++ map Z.of_nat fp)%list)
                          (0 - Z.of_nat (length fp)))).
  { unfold numeric_value. rewrite (digitpart_spell ds tail Hne Hds Htail).
    unfold tail, fp in *. destruct fs as [f |].
    - change (("." =? ".")%char) with true. cbv iota beta.
      destruct f as [| k f].
      + reflexivity.
      + pose proof (digitpart_spell (k :: f) [] ltac:(discriminate) Hfs (or_introl eq_refl))
          as E.
        rewrite app_nil_r in E. rewrite E. cbv iota beta.
        unfold exponent_part. rewrite length_map. reflexivity.
    - simpl. rewrite app_nil_r. reflexivity. }
  assert (Hval : scale10 (digits_value (map Z.of_nat ds ++ map Z.of_nat fp)%list)
                         (0 - Z.of_nat (length fp)) ==
                 inject_Z (digits_number ds) +
                 inject_Z (digits_number fp) / inject_Z (10 ^ Z.of_nat (length fp))).
  { rewrite scale10_neg_exponent, digits_value_app, length_map,
      <- !digits_number_value.
    assert (Hp : ~ inject_Z (10 ^ Z.of_nat (length fp)) == 0).
    { change 0 with (inject_Z 0). rewrite inject_Z_injective.
      pose proof (Z.pow_pos_nonneg 10 (Z.of_nat (length fp))). lia. }
    rewrite inject_Z_plus, inject_Z_mult. field; exact Hp. }
  assert (Hspec : decimal_number false ds fs ==
                  inject_Z (digits_number ds) +
                  inject_Z (digits_number fp) / inject_Z (10 ^ Z.of_nat (length fp))).
  { unfold decimal_number, fp. destruct fs as [f |]; [reflexivity |].
    simpl. unfold digits_number. simpl. field; discriminate. }
  assert (Hns : Forall (fun c => is_py_space c = false) (map digit_char ds ++ tail)%list).
  { apply Forall_app. split; [apply nospace_spell; exact Hds |].
    unfold tail. destruct fs; [constructor; [reflexivity | apply nospace_spell; exact Hfs] | constructor]. }
  destruct ds as [| k ds']; [congruence |].
  assert (Hk : (k < 10)%nat) by (inversion Hds; assumption).
  destruct (digit_char_facts k Hk) as (_ & _ & _ & _ & Hm & Hp).
  unfold float_of_string, decimal_spelling. fold tail.
  rewrite list_ascii_of_string_of_list_ascii.
  set (body := (map digit_char (k :: ds') ++ tail)%list) in *.
  assert (Eb : body = digit_char k :: (map digit_char ds' ++ tail)%list) by reflexivity.
  assert (Hsv : special_value body = None)
    by (rewrite Eb; apply special_value_digit; exact Hk).
  destruct neg.
  - change ((["-"%char] ++ body)%list) with ("-"%char :: body).
    rewrite strip_chars_nospace by (constructor; [reflexivity | exact Hns]).
    replace (("-" =? "-")%char) with true by reflexivity. cbv beta iota.
    rewrite Hsv, Hnum. cbn [option_map]. f_equal. apply b64_round_compat.
    unfold decimal_number. fold (decimal_number false (k :: ds') fs).
    rewrite Hval, Hspec. reflexivity.
  - change (([] ++ body)%list) with body.
    rewrite strip_chars_nospace by exact Hns.
    assert (Hsplit : match body with
                     | [] => (false, body)
                     | c :: r => if (c =? "-")%char then (true, r)
                                 else if (c =? "+")%char then (false, r) else (false, body)
                     end = (false, body)).
    { rewrite Eb at 1. cbv beta iota. rewrite Hm, Hp. reflexivity. }
    rewrite Hsplit. cbv beta iota.
    rewrite Hsv, Hnum. cbn [option_map]. f_equal. apply b64_round_compat.
    rewrite Hval, Hspec. reflexivity.
Qed.

(** Two [jd_match_score] values on which [float] agrees give the same
    score. *)
Lemma calculate_jd_same d v1 v2 :
  py_float v1 = py_float v2 ->
  calculate_repo_score (PDict (dict_set d "jd_match_score" v1)) =
  calculate_repo_score (PDict (dict_set d "jd_match_score" v2)).
Proof.
  intros H. unfold calculate_repo_score.
  rewrite !base_score_of_set_jd.
  destruct (base_score_of (PDict d)) as [b | e]; [| reflexivity].
  unfold bind, py_get. rewrite !dict_lookup_set_same. rewrite H. reflexivity.
Qed.

Lemma b64_round_not_nan q : b64_round q <> NaN.
Proof.
  unfold b64_round.
  destruct (Qcompare q 0); [discriminate | destruct (Qle_bool _ _); discriminate ..].
Qed.

(** A [jd_match_score] whose float is infinite makes [round] raise
    [OverflowError], as a value whose conversion overflows does. *)
Lemma calculate_jd_overflow d v1 v2 x :
  py_float v1 = Ok x -> x = PosInf \/ x = NegInf -> py_float v2 = Err OverflowError ->
  calculate_repo_score (PDict (dict_set d "jd_match_score" v1)) =
  calculate_repo_score (PDict (dict_set d "jd_match_score" v2)).
Proof.
  intros H1 Hx H2.
  destruct (base_score_of (PDict d)) as [b | e] eqn:Hb.
  - pose proof (base_score_of_range _ _ Hb) as Hr.
    rewrite <- (base_score_of_set_jd d v1) in Hb.
    pose proof Hb as Hb2. rewrite !base_score_of_set_jd in Hb2.
    rewrite <- (base_score_of_set_jd d v2) in Hb2.
    rewrite (calculate_repo_score_base _ _ Hb), (calculate_repo_score_base _ _ Hb2).
    unfold py_get. rewrite !dict_lookup_set_same. cbn [bind]. rewrite H1, H2. cbn [bind].
    destruct (mul_0_6_range b Hr) as (y & -> & _).
    rewrite lit_0_4_value. destruct Hx as [-> | ->]; reflexivity.
  - unfold calculate_repo_score. rewrite !base_score_of_set_jd, Hb. reflexivity.
Qed.

Lemma decimal_number_int neg ds :
  decimal_number neg ds None ==
  inject_Z (if neg then - digits_number ds else digits_number ds)%Z.
Proof.
  unfold decimal_number. destruct neg.
  - rewrite inject_Z_opp. rewrite Qplus_0_r. reflexivity.
  - rewrite Qplus_0_r. reflexivity.
Qed.

(** C10. A [jd_match_score] given as a string spelling a decimal numeral
    (optional minus sign, digits, optional fraction, e.g. "85" or "72.5")
    yields the same score as the number it spells given as a float, and,
    for a numeral without fraction, as the same number given as an int. *)
Theorem decimal_string_jd d neg ds fs :
  ds <> [] -> Forall (fun k => (k < 10)%nat) ds ->
  Forall (fun k => (k < 10)%nat) (match fs with Some f => f | None => [] end) ->
  calculate_repo_score (PDict (dict_set d "jd_match_score" (PStr (decimal_spelling neg ds fs)))) =
  calculate_repo_score (PDict (dict_set d "jd_match_score" (PFloat (b64_round (decimal_number neg ds fs))))) /\
  (fs = None ->
   calculate_repo_score (PDict (dict_set d "jd_match_score" (PStr (decimal_spelling neg ds fs)))) =
   calculate_repo_score (PDict (dict_set d "jd_match_score"
     (PInt (if neg then - digits_number ds else digits_number ds)%Z)))).
Proof.
  intros Hne Hds Hfs.
  pose proof (float_of_decimal neg ds fs Hne Hds Hfs) as Hs.
  split.
  - apply calculate_jd_same. cbn [py_float]. exact Hs.
  - intros ->.
    set (z := (if neg then - digits_number ds else digits_number ds)%Z) in *.
    rewrite (b64_round_compat _ (inject_Z z) (decimal_number_int neg ds)) in Hs.
    destruct (b64_round (inject_Z z)) as [q | | |] eqn:E.
    + apply calculate_jd_same. cbn [py_float]. rewrite Hs. unfold int_to_float. rewrite E.
      reflexivity.
    + apply (calculate_jd_overflow d _ _ PosInf); [exact Hs | left; reflexivity |].
      cbn [py_float]. unfold int_to_float. rewrite E. reflexivity.
    + apply (calculate_jd_overflow d _ _ NegInf); [exact Hs | right; reflexivity |].
      cbn [py_float]. unfold int_to_float. rewrite E. reflexivity.
    + exfalso. exact (b64_round_not_nan _ E).
Qed.

(** The numerals "72.5", "85" and a numeral of 400 nines. *)
Lemma decimal_string_jd_witness :
  let d := mk_fields ["Python"; "JS"] ["Flask"] [] "HIGH" "Active" (PInt 0) in
  decimal_spelling false [7; 2]%nat (Some [5]%nat) = "72.5" /\
  decimal_spelling false [8; 5]%nat None = "85" /\
  (calculate_repo_score (PDict (dict_set d "jd_match_score" (PStr (decimal_spelling false [7; 2]%nat (Some [5]%nat))))) =
   calculate_repo_score (PDict (dict_set d "jd_match_score" (PFloat (b64_round (decimal_number false [7; 2]%nat (Some [5]%nat)))))) /\
   (Some [5]%nat = None ->
    calculate_repo_score (PDict (dict_set d "jd_match_score" (PStr (decimal_spelling false [7; 2]%nat (Some [5]%nat))))) =
    calculate_repo_score (PDict (dict_set d "jd_match_score" (PInt (digits_number [7; 2]%nat)))))) /\
  (calculate_repo_score (PDict (dict_set d "jd_match_score" (PStr (decimal_spelling false [8; 5]%nat None)))) =
   calculate_repo_score (PDict (dict_set d "jd_match_score" (PFloat (b64_round (decimal_number false [8; 5]%nat None))))) /\
   (@None (list nat) = None ->
    calculate_repo_score (PDict (dict_set d "jd_match_score" (PStr (decimal_spelling false [8; 5]%nat None)))) =
    calculate_repo_score (PDict (dict_set d "jd_match_score" (PInt (digits_number [8; 5]%nat)))))) /\
  (calculate_repo_score (PDict (dict_set d "jd_match_score" (PStr (decimal_spelling false (repeat 9%nat 400) None)))) =
   calculate_repo_score (PDict (dict_set d "jd_match_score" (PFloat (b64_round (decimal_number false (repeat 9%nat 400) None))))) /\
   (@None (list nat) = None ->
    calculate_repo_score (PDict (dict_set d "jd_match_score" (PStr (decimal_spelling false (repeat 9%nat 400) None)))) =
    calculate_repo_score (PDict (dict_set d "jd_match_score" (PInt (digits_number (repeat 9%nat 400))))))).
Proof.
  intros d. split; [reflexivity |]. split; [reflexivity |]. split; [| split].
  - apply (decimal_string_jd d false [7; 2]%nat (Some [5]%nat));
      [discriminate | repeat constructor | repeat constructor].
  - apply (decimal_string_jd d false [8; 5]%nat None);
      [discriminate | repeat constructor | repeat constructor].
  - apply (decimal_string_jd d false (repeat 9%nat 400) None);
      [discriminate | | constructor].
    apply Forall_forall. intros k Hk. apply repeat_spec in Hk. lia.
Defined.

(** The 400-digit numeral of the witness above spells an int too large for
    a float: both as text and as an int it makes [score] raise
    [OverflowError]. *)
Example decimal_string_jd_overflow :
  let d := mk_fields ["Python"; "JS"] ["Flask"] [] "HIGH" "Active" (PInt 0) in
  calculate_repo_score (PDict (dict_set d "jd_match_score" (PStr (decimal_spelling false (repeat 9%nat 400) None)))) = Err OverflowError /\
  calculate_repo_score (PDict (dict_set d "jd_match_score" (PInt (digits_number (repeat 9%nat 400))))) = Err OverflowError.
Proof. split; vm_compute; reflexivity. Qed.

(** ** Fetchers, repository loop, display and summary *)

Lemma obind_done {A B} (m : outcome A) (k : A -> outcome B) b :
  obind m k = Done b -> exists a, m = Done a /\ k a = Done b.
Proof. destruct m as [a | e]; simpl; [eauto | discriminate]. Qed.

Lemma lift_done {A} (r : result A) a : lift r = Done a -> r = Ok a.
Proof. destruct r; simpl; congruence. Qed.

Lemma bind_ok {A B} (m : result A) (k : A -> result B) b :
  bind m k = Ok b -> exists a, m = Ok a /\ k a = Ok b.
Proof. destruct m as [a | e]; simpl; [eauto | discriminate]. Qed.

Lemma ok_inj {A} (a b : A) : Ok a = Ok b -> a = b.
Proof. congruence. Qed.

Lemma done_inj {A} (a b : A) : Done a = Done b -> a = b.
Proof. congruence. Qed.

Ltac done_inv :=
  repeat match goal with
  | H : obind ?m ?k = Done ?b |- _ =>
      let a := fresh "a" in let Hm := fresh "Hm" in
      apply obind_done in H; destruct H as (a & Hm & H); cbv beta in H
  | H : lift ?r = Done ?a |- _ => apply lift_done in H
  end.

Lemma map_result_forall2 {A B} (f : A -> result B) xs ys :
  map_result f xs = Ok ys <-> Forall2 (fun x y => f x = Ok y) xs ys.
Proof.
  revert ys. induction xs as [| x xs IH]; intros ys; simpl.
  - split; [intros H; injection H as <-; constructor | intros H; inversion H; reflexivity].
  - split.
    + intros H. destruct (bind_ok _ _ _ H) as (y & Hy & H').
      destruct (bind_ok _ _ _ H') as (ys' & Hys & H''). injection H'' as <-.
      constructor; [exact Hy | apply IH; exact Hys].
    + intros H. inversion H as [| ? y ? ys' Hy Hys]; subst.
      rewrite Hy. simpl. apply IH in Hys. rewrite Hys. reflexivity.
Qed.

Lemma map_result_length {A B} (f : A -> result B) xs ys :
  map_result f xs = Ok ys -> length ys = length xs.
Proof.
  intros H. apply map_result_forall2 in H. symmetry. eapply Forall2_length. exact H.
Qed.

Lemma Forall2_firstn {A B} (R : A -> B -> Prop) n xs ys :
  Forall2 R xs ys -> Forall2 R (firstn n xs) (firstn n ys).
Proof.
  revert xs ys. induction n as [| n IH]; intros xs ys H; [constructor |].
  destruct H; simpl; constructor; auto.
Qed.

Lemma length_substring0 n s : (String.length (substring 0 n s) <= n)%nat.
Proof.
  revert n. induction s as [| c s IH]; intros n; destruct n; simpl; try lia.
  specialize (IH n). lia.
Qed.

(** The four parts of [get_repo_details], one request each. *)
Lemma get_repo_details_done http_get py_str u r rd cm fs ls :
  get_repo_details http_get py_str u r = Done (rd, cm, fs, ls) ->
  exists r1 r2 r3 r4,
    request http_get (repo_url u r "readme") true = Done r1 /\
    (if Z.eqb (status_code r1) 200 then
       j <-- resp_json r1 ;;
       url <-- lift (py_getitem j "download_url") ;;
       r <-- request http_get (py_str url) false ;;
       Done (resp_text r)
     else Done EmptyString) = Done rd /\
    request http_get (repo_url u r "commits") true = Done r2 /\
    (if Z.eqb (status_code r2) 200 then
       j <-- resp_json r2 ;;
       latest <-- lift (py_slice_upto5 j) ;;
       items <-- lift (py_iter latest) ;;
       lift (map_result (fun commit => c <- py_getitem commit "commit" ;;
                                       py_getitem c "message") items)
     else Done []) = Done cm /\
    request http_get (repo_url u r "contents") true = Done r3 /\
    (if Z.eqb (status_code r3) 200 then
       j <-- resp_json r3 ;;
       items <-- lift (py_iter j) ;;
       lift (map_result (fun file => py_getitem file "name") items)
     else Done []) = Done fs /\
    request http_get (repo_url u r "languages") true = Done r4 /\
    (if Z.eqb (status_code r4) 200 then
       j <-- resp_json r4 ;; lift (py_keys j)
     else Done []) = Done ls.
Proof.
  unfold get_repo_details. intros H.
  apply obind_done in H; destruct H as (r1 & H1 & H); cbv beta in H.
  apply obind_done in H; destruct H as (rd' & H2 & H); cbv beta in H.
  apply obind_done in H; destruct H as (r2 & H3 & H); cbv beta in H.
  apply obind_done in H; destruct H as (cm' & H4 & H); cbv beta in H.
  apply obind_done in H; destruct H as (r3 & H5 & H); cbv beta in H.
  apply obind_done in H; destruct H as (fs' & H6 & H); cbv beta in H.
  apply obind_done in H; destruct H as (r4 & H7 & H); cbv beta in H.
  apply obind_done in H; destruct H as (ls' & H8 & H); cbv beta in H.
  injection H as <- <- <- <-.
  exists r1, r2, r3, r4. tauto.
Qed.

Lemma request_done http_get url h r :
  request http_get url h = Done r -> http_get url h = Some r.
Proof. unfold request. destruct (http_get url h); congruence. Qed.

(** Whenever [get_repo_details] returns, it carries at most five commit messages. *)
Theorem get_repo_details_latest_five http_get py_str u r rd cm fs ls :
  get_repo_details http_get py_str u r = Done (rd, cm, fs, ls) -> (length cm <= 5)%nat.
Proof.
  intros H. apply get_repo_details_done in H.
  destruct H as (r1 & r2 & r3 & r4 & _ & _ & _ & Hc & _).
  destruct (Z.eqb (status_code r2) 200).
  - done_inv. apply map_result_length in Hc. rewrite Hc.
    match goal with
    | Hs : py_slice_upto5 ?j = Ok ?latest, Hi : py_iter ?latest = Ok ?items |- _ =>
        destruct j; unfold py_slice_upto5 in Hs; try discriminate;
        apply ok_inj in Hs; subst; unfold py_iter in Hi; apply ok_inj in Hi; subst
    end.
    + rewrite length_map, length_list_ascii_of_string. apply length_substring0.
    + rewrite length_firstn. lia.
  - injection Hc as <-. simpl. lia.
Qed.

(** When the commits endpoint answers 200 with a list of commit objects, the
    commit messages returned are those of the first five commits, in order. *)
Theorem get_repo_details_commit_messages http_get py_str u r resp cs ms rd cm fs ls :
  http_get (repo_url u r "commits") true = Some resp ->
  status_code resp = 200%Z -> json_body resp = Some (PList cs) ->
  Forall2 (fun c m => exists d d', c = PDict d /\ dict_lookup "commit" d = Some (PDict d') /\
                                   dict_lookup "message" d' = Some m) cs ms ->
  get_repo_details http_get py_str u r = Done (rd, cm, fs, ls) ->
  cm = firstn 5 ms.
Proof.
  intros Hh Hs Hj Hcs H. apply get_repo_details_done in H.
  destruct H as (r1 & r2 & r3 & r4 & _ & _ & Hr2 & Hc & _).
  apply request_done in Hr2. rewrite Hh in Hr2. injection Hr2 as <-.
  rewrite Hs in Hc. cbn [Z.eqb] in Hc. unfold resp_json in Hc. rewrite Hj in Hc.
  cbn [obind lift py_slice_upto5 py_iter] in Hc.
  apply lift_done, map_result_forall2 in Hc.
  assert (Hm : Forall2 (fun commit m => (c <- py_getitem commit "commit" ;;
                                          py_getitem c "message") = Ok m)
                       (firstn 5 cs) (firstn 5 ms)).
  { apply Forall2_firstn. eapply Forall2_impl; [| exact Hcs].
    intros c m (d & d' & -> & H1 & H2). simpl. rewrite H1. simpl. rewrite H2. reflexivity. }
  apply map_result_forall2 in Hc. apply map_result_forall2 in Hm. congruence.
Qed.

(** Each endpoint that answers with a status other than 200 leaves its part at
    its empty default: an empty README text and empty commit, file and language
    lists. *)
Theorem get_repo_details_non_200_defaults http_get py_str u r rd cm fs ls :
  get_repo_details http_get py_str u r = Done (rd, cm, fs, ls) ->
  (forall resp, http_get (repo_url u r "readme") true = Some resp ->
     status_code resp <> 200%Z -> rd = EmptyString) /\
  (forall resp, http_get (repo_url u r "commits") true = Some resp ->
     status_code resp <> 200%Z -> cm = []) /\
  (forall resp, http_get (repo_url u r "contents") true = Some resp ->
     status_code resp <> 200%Z -> fs = []) /\
  (forall resp, http_get (repo_url u r "languages") true = Some resp ->
     status_code resp <> 200%Z -> ls = []).
Proof.
  intros H. apply get_repo_details_done in H.
  destruct H as (r1 & r2 & r3 & r4 & H1 & E1 & H2 & E2 & H3 & E3 & H4 & E4).
  apply request_done in H1, H2, H3, H4.
  repeat split; intros resp Hr Hs;
    [rewrite H1 in Hr | rewrite H2 in Hr | rewrite H3 in Hr | rewrite H4 in Hr];
    injection Hr as <-; apply Z.eqb_neq in Hs;
    [rewrite Hs in E1 | rewrite Hs in E2 | rewrite Hs in E3 | rewrite Hs in E4];
    congruence.
Qed.

(** When the contents and languages endpoints answer 200, the file structure
    lists the entries' names in order and the languages are the keys of the
    returned object in order. *)
Theorem get_repo_details_files_and_languages http_get py_str u r rd cm fs ls
    resp3 entries names resp4 d :
  http_get (repo_url u r "contents") true = Some resp3 ->
  status_code resp3 = 200%Z -> json_body resp3 = Some (PList entries) ->
  Forall2 (fun e n => exists de, e = PDict de /\ dict_lookup "name" de = Some n) entries names ->
  http_get (repo_url u r "languages") true = Some resp4 ->
  status_code resp4 = 200%Z -> json_body resp4 = Some (PDict d) ->
  get_repo_details http_get py_str u r = Done (rd, cm, fs, ls) ->
  fs = names /\ ls = map (fun kv => PStr (fst kv)) d.
Proof.
  intros Hh3 Hs3 Hj3 Hn Hh4 Hs4 Hj4 H. apply get_repo_details_done in H.
  destruct H as (r1 & r2 & r3 & r4 & _ & _ & _ & _ & H3 & E3 & H4 & E4).
  apply request_done in H3, H4.
  rewrite Hh3 in H3. injection H3 as <-. rewrite Hh4 in H4. injection H4 as <-.
  rewrite Hs3 in E3. rewrite Hs4 in E4. cbn [Z.eqb] in E3, E4.
  unfold resp_json in E3, E4. rewrite Hj3 in E3. rewrite Hj4 in E4.
  apply done_inj in E4.
  cbn [obind lift py_iter] in E3.
  split; [| symmetry; exact E4].
  apply lift_done, map_result_forall2 in E3.
  assert (Hm : Forall2 (fun file n => py_getitem file "name" = Ok n) entries names).
  { eapply Forall2_impl; [| exact Hn].
    intros e n (de & -> & He). simpl. rewrite He. reflexivity. }
  apply map_result_forall2 in E3. apply map_result_forall2 in Hm. congruence.
Qed.

Lemma py_str_list_non_str xs x :
  In x xs -> (forall s, x <> PStr s) -> py_str_list xs = Err TypeError.
Proof.
  induction xs as [| y xs IH]; intros Hin Hx; [destruct Hin |].
  destruct Hin as [-> | Hin].
  - destruct x; try reflexivity. exfalso. eapply Hx. reflexivity.
  - destruct y; try reflexivity. simpl. rewrite (IH Hin Hx). reflexivity.
Qed.

(** A file name, commit message or language that is not a string makes the
    analyzer return the default analysis, whatever the LLM answers; that
    analysis scores 0. *)
Theorem analyze_non_string_item_default readme fs cs ls jd llm x :
  In x (fs ++ cs ++ ls) -> (forall s, x <> PStr s) ->
  analyze_repo_values readme fs cs ls jd llm = default_analysis /\
  calculate_repo_score (analyze_repo_values readme fs cs ls jd llm) = Ok 0%Z.
Proof.
  intros Hin Hx.
  assert (H : analyze_repo_values readme fs cs ls jd llm = default_analysis).
  { unfold analyze_repo_values.
    apply in_app_or in Hin. destruct Hin as [Hin | Hin].
    - rewrite (py_str_list_non_str fs x Hin Hx). reflexivity.
    - apply in_app_or in Hin. destruct (py_str_list fs); [| reflexivity].
      destruct Hin as [Hin | Hin].
      + rewrite (py_str_list_non_str cs x Hin Hx). reflexivity.
      + destruct (py_str_list cs); [| reflexivity].
        rewrite (py_str_list_non_str ls x Hin Hx). reflexivity. }
  split; [exact H |]. rewrite H. vm_compute. reflexivity.
Qed.

Lemma repos_loop_done http_get py_str u jd llm repos items idx acc tot res total :
  repos_loop http_get py_str u jd llm repos items idx acc tot = Done (res, total) ->
  exists fresh,
    res = app acc fresh /\
    Forall2 (fun repo e => py_getitem repo "name" = Ok (fst (fst e))) items fresh /\
    Forall (fun e => calculate_repo_score (snd (fst e)) = Ok (snd e)) fresh /\
    total = (tot + fold_right Z.add 0 (map snd fresh))%Z.
Proof.
  revert idx acc tot. induction items as [| repo rest IH]; intros idx acc tot H.
  - cbn [repos_loop] in H. injection H as <- <-.
    exists []. rewrite app_nil_r. repeat split; [constructor | constructor | simpl; lia].
  - cbn [repos_loop] in H.
    apply obind_done in H. destruct H as (name & Hn & H). cbv beta in H.
    apply obind_done in H. destruct H as ([[[rd cm] fs] ls] & Hd & H). cbv beta iota in H.
    apply obind_done in H. destruct H as (sc & Hsc & H). cbv beta in H.
    apply obind_done in H. destruct H as (n & _ & H). cbv beta in H.
    apply obind_done in H. destruct H as (v & _ & H). cbv beta in H.
    apply IH in H. destruct H as (fresh & Hres & Hf & Hs & Ht).
    apply lift_done in Hn, Hsc.
    exists ((name, analyze_repo_values rd fs cm ls jd llm, sc) :: fresh).
    rewrite <- app_assoc in Hres. simpl in Hres.
    repeat split.
    + exact Hres.
    + constructor; [exact Hn | exact Hf].
    + constructor; [exact Hsc | exact Hs].
    + rewrite Ht. simpl. lia.
Qed.

Lemma analyze_github_repos_pair http_get py_str u llm jd results total :
  analyze_github_repos http_get py_str u llm jd = Done (AgrPair results total) ->
  exists repos items,
    get_github_repos http_get u = Done repos /\ py_truthy repos = true /\
    py_iter repos = Ok items /\
    Forall2 (fun repo e => py_getitem repo "name" = Ok (fst (fst e))) items results /\
    Forall (fun e => calculate_repo_score (snd (fst e)) = Ok (snd e)) results /\
    total = fold_right Z.add 0%Z (map snd results).
Proof.
  unfold analyze_github_repos. intros H.
  apply obind_done in H. destruct H as (repos & Hr & H). cbv beta in H.
  destruct (py_truthy repos) eqn:Ht; cbn [negb] in H; [| discriminate].
  apply obind_done in H. destruct H as (items & Hi & H). cbv beta in H.
  apply obind_done in H. destruct H as ([res tot] & Hl & H). cbv beta iota in H.
  apply done_inj in H. injection H as <- <-.
  apply repos_loop_done in Hl. destruct Hl as (fresh & -> & Hf & Hs & ->).
  exists repos, items. simpl. repeat split; auto. apply lift_done. exact Hi.
Qed.

(** Each entry the loop appends is named after its repository and carries
    the analysis of the details fetched for that repository. *)
Lemma repos_loop_entries http_get py_str u jd llm repos items idx acc tot res total :
  repos_loop http_get py_str u jd llm repos items idx acc tot = Done (res, total) ->
  exists fresh,
    res = app acc fresh /\
    Forall2 (fun repo e =>
      py_getitem repo "name" = Ok (fst (fst e)) /\
      exists rd cm fs ls,
        get_repo_details http_get py_str u (py_str (fst (fst e))) = Done (rd, cm, fs, ls) /\
        snd (fst e) = analyze_repo_values rd fs cm ls jd llm) items fresh.
Proof.
  revert idx acc tot. induction items as [| repo rest IH]; intros idx acc tot H.
  - cbn [repos_loop] in H. injection H as <- <-.
    exists []. rewrite app_nil_r. split; [reflexivity | constructor].
  - cbn [repos_loop] in H.
    apply obind_done in H. destruct H as (name & Hn & H). cbv beta in H.
    apply obind_done in H. destruct H as ([[[rd cm] fs] ls] & Hd & H). cbv beta iota in H.
    apply obind_done in H. destruct H as (sc & _ & H). cbv beta in H.
    apply obind_done in H. destruct H as (n & _ & H). cbv beta in H.
    apply obind_done in H. destruct H as (v & _ & H). cbv beta in H.
    apply IH in H. destruct H as (fresh & Hres & Hf).
    apply lift_done in Hn.
    exists ((name, analyze_repo_values rd fs cm ls jd llm, sc) :: fresh).
    rewrite <- app_assoc in Hres. simpl in Hres.
    split; [exact Hres |].
    constructor; [| exact Hf].
    split; [exact Hn |]. exists rd, cm, fs, ls. split; [exact Hd | reflexivity].
Qed.

Lemma analyze_github_repos_entries http_get py_str u llm jd results total :
  analyze_github_repos http_get py_str u llm jd = Done (AgrPair results total) ->
  exists repos items,
    get_github_repos http_get u = Done repos /\ py_iter repos = Ok items /\
    Forall2 (fun repo e =>
      py_getitem repo "name" = Ok (fst (fst e)) /\
      exists rd cm fs ls,
        get_repo_details http_get py_str u (py_str (fst (fst e))) = Done (rd, cm, fs, ls) /\
        snd (fst e) = analyze_repo_values rd fs cm ls jd llm) items results.
Proof.
  unfold analyze_github_repos. intros H.
  apply obind_done in H. destruct H as (repos & Hr & H). cbv beta in H.
  destruct (py_truthy repos) eqn:Ht; cbn [negb] in H; [| discriminate].
  apply obind_done in H. destruct H as (items & Hi & H). cbv beta in H.
  apply obind_done in H. destruct H as ([res tot] & Hl & H). cbv beta iota in H.
  apply done_inj in H. injection H as <- <-.
  apply repos_loop_entries in Hl. destruct Hl as (fresh & -> & Hf).
  exists repos, items. split; [exact Hr |]. split; [apply lift_done; exact Hi | exact Hf].
Qed.

(** When [analyze_github_repos] returns a pair, the results hold one entry per
    repository in listing order, named after it, whose analysis is
    [analyze_repo_and_jd_match] of the details [get_repo_details] fetched for
    that repository, each with the score [calculate_repo_score] gives that
    analysis, and the total is the sum of these scores. *)
Theorem analyze_github_repos_totals http_get py_str u llm jd results total :
  analyze_github_repos http_get py_str u llm jd = Done (AgrPair results total) ->
  exists repos items,
    get_github_repos http_get u = Done repos /\ py_iter repos = Ok items /\
    Forall2 (fun repo e =>
      py_getitem repo "name" = Ok (fst (fst e)) /\
      exists rd cm fs ls,
        get_repo_details http_get py_str u (py_str (fst (fst e))) = Done (rd, cm, fs, ls) /\
        snd (fst e) = analyze_repo_values rd fs cm ls jd llm) items results /\
    Forall (fun e => calculate_repo_score (snd (fst e)) = Ok (snd e)) results /\
    total = fold_right Z.add 0%Z (map snd results).
Proof.
  intros H.
  pose proof (analyze_github_repos_entries _ _ _ _ _ _ _ H) as (repos & items & H1 & H2 & H3).
  apply analyze_github_repos_pair in H.
  destruct H as (repos' & items' & H1' & _ & H2' & _ & H4 & H5).
  exists repos, items. tauto.
Qed.

Lemma obind_not_raised {A B} (m : outcome A) (k : A -> outcome B) e :
  m <> Raised e -> (forall a, k a <> Raised e) -> obind m k <> Raised e.
Proof. destruct m as [a | e']; simpl; [auto | congruence]. Qed.

Lemma lift_not_streamlit {A} (r : result A) : lift r <> Raised StreamlitAPIException.
Proof. destruct r; simpl; discriminate. Qed.

Lemma request_not_streamlit http_get url h :
  request http_get url h <> Raised StreamlitAPIException.
Proof. unfold request. destruct (http_get url h); discriminate. Qed.

Lemma resp_json_not_streamlit r : resp_json r <> Raised StreamlitAPIException.
Proof. unfold resp_json. destruct (json_body r); discriminate. Qed.

Lemma done_not_raised {A} (a : A) e : Done a <> Raised e.
Proof. discriminate. Qed.

Create HintDb no_streamlit.
#[local] Hint Resolve lift_not_streamlit request_not_streamlit resp_json_not_streamlit
  done_not_raised : no_streamlit.

Ltac no_streamlit :=
  repeat (apply obind_not_raised; [solve [auto with no_streamlit] | intros ?]);
  auto with no_streamlit.

Lemma get_repo_details_not_streamlit http_get py_str u r :
  get_repo_details http_get py_str u r <> Raised StreamlitAPIException.
Proof.
  unfold get_repo_details.
  repeat (apply obind_not_raised;
          [ first [ solve [auto with no_streamlit]
                  | match goal with |- (if ?b then _ else _) <> _ => destruct b end;
                    no_streamlit ]
          | intros ? ]).
  auto with no_streamlit.
Qed.

Lemma get_github_repos_not_streamlit http_get u :
  get_github_repos http_get u <> Raised StreamlitAPIException.
Proof.
  unfold get_github_repos. apply obind_not_raised; [auto with no_streamlit | intros r].
  destruct (Z.eqb (status_code r) 200); auto with no_streamlit.
Qed.

Lemma py_len_iter x items : py_iter x = Ok items -> py_len x = Ok (Z.of_nat (length items)).
Proof.
  destruct x; simpl; try discriminate; intros H; injection H as <-.
  - rewrite length_map, length_list_ascii_of_string. reflexivity.
  - reflexivity.
  - rewrite length_map. reflexivity.
Qed.

Lemma Qle_bool_iff_false x y : ~ x <= y -> Qle_bool x y = false.
Proof.
  intros H. destruct (Qle_bool x y) eqn:E; [| reflexivity].
  apply Qle_bool_iff in E. contradiction.
Qed.

(** A value between two binary64 values rounds to a value between them. *)
Lemma b64_round_between (q lo hi : Q) :
  b64_round lo = Fin lo -> b64_round hi = Fin hi -> lo <= q <= hi ->
  exists y, b64_round q = Fin y /\ lo <= y <= hi.
Proof.
  intros El Eh [H1 H2]. apply fle_between.
  - rewrite <- El. apply b64_round_mono. exact H1.
  - rewrite <- Eh. apply b64_round_mono. exact H2.
Qed.

Lemma st_progress_unit (q : Q) : 0 <= q <= 1 -> st_progress (b64_round q) = Done tt.
Proof.
  intros H.
  destruct (b64_round_between q 0 1 eq_refl ltac:(vm_compute; reflexivity) H) as (y & -> & Hy).
  unfold st_progress. destruct Hy as [Hy0 Hy1].
  apply Qle_bool_iff in Hy0, Hy1. rewrite Hy0, Hy1. reflexivity.
Qed.

Lemma progress_fraction_ok (i n : Z) :
  (0 <= i)%Z -> (i + 1 <= n)%Z -> st_progress (b64_round (inject_Z (i + 1) / inject_Z n)) = Done tt.
Proof.
  intros H0 H1.
  assert (Hn : 0 < inject_Z n) by (change 0 with (inject_Z 0); rewrite <- Zlt_Qlt; lia).
  assert (Ha : 0 <= inject_Z (i + 1) / inject_Z n).
  { apply Qle_shift_div_l; [exact Hn |]. rewrite Qmult_0_l.
    change 0 with (inject_Z 0). rewrite <- Zle_Qle. lia. }
  assert (Hb : inject_Z (i + 1) / inject_Z n <= 1).
  { apply Qle_shift_div_r; [exact Hn |]. rewrite Qmult_1_l, <- Zle_Qle. lia. }
  apply st_progress_unit. split; assumption.
Qed.

Lemma repos_loop_not_streamlit http_get py_str u jd llm repos items idx acc tot n :
  py_len repos = Ok n -> (0 <= idx)%Z -> (idx + Z.of_nat (length items) <= n)%Z ->
  repos_loop http_get py_str u jd llm repos items idx acc tot <> Raised StreamlitAPIException.
Proof.
  intros Hn. revert idx acc tot.
  induction items as [| repo rest IH]; intros idx acc tot H0 H1; cbn [repos_loop];
    [discriminate |].
  apply obind_not_raised; [auto with no_streamlit | intros name].
  apply obind_not_raised; [apply get_repo_details_not_streamlit | intros [[[rd cm] fs] ls]].
  apply obind_not_raised; [auto with no_streamlit | intros sc].
  rewrite Hn. cbn [lift obind].
  cbn [length] in H1. rewrite Nat2Z.inj_succ in H1.
  rewrite progress_fraction_ok by lia. cbn [obind].
  apply IH; lia.
Qed.

(** The progress fraction [(idx + 1) / len(repos)] always lies in [0, 1]:
    [analyze_github_repos] never raises Streamlit's range error. *)
Theorem analyze_github_repos_progress_in_range http_get py_str u llm jd :
  analyze_github_repos http_get py_str u llm jd <> Raised StreamlitAPIException.
Proof.
  unfold analyze_github_repos.
  apply obind_not_raised; [apply get_github_repos_not_streamlit | intros repos].
  destruct (negb (py_truthy repos)); [discriminate |].
  destruct (py_iter repos) as [items | e] eqn:Hi; cbn [lift obind]; [| discriminate].
  apply obind_not_raised; [| intros [res tot]; discriminate].
  apply (repos_loop_not_streamlit _ _ _ _ _ _ _ _ _ _ (Z.of_nat (length items)));
    [apply py_len_iter; exact Hi | lia | lia].
Qed.

(** When the repository listing answers a status other than 200, or an empty
    list, [analyze_github_repos] returns [[]] and [main] raises [ValueError]
    unpacking it. *)
Theorem main_report_no_repos_raises http_get py_str u llm jd resp :
  http_get ("https://api.github.com/users/" ++ u ++ "/repos") true = Some resp ->
  (status_code resp <> 200%Z \/ json_body resp = Some (PList [])) ->
  main_report http_get py_str u llm jd = Raised (PyExc ValueError).
Proof.
  intros Hh Hc. unfold main_report, analyze_github_repos, get_github_repos, request.
  rewrite Hh. cbn [obind].
  destruct (Z.eqb (status_code resp) 200) eqn:Hs.
  - destruct Hc as [Hc | Hc]; [apply Z.eqb_eq in Hs; contradiction |].
    unfold resp_json. rewrite Hc. reflexivity.
  - reflexivity.
Qed.

Lemma insert_desc_perm x l : Permutation (insert_desc x l) (x :: l).
Proof.
  induction l as [| y l IH]; simpl; [reflexivity |].
  destruct (score_of y <? score_of x)%Z; [reflexivity |].
  rewrite IH. apply perm_swap.
Qed.

Lemma sort_fold_perm xs acc :
  Permutation (fold_left (fun acc x => insert_desc x acc) xs acc) (app xs acc).
Proof.
  revert acc. induction xs as [| x xs IH]; intros acc; simpl; [reflexivity |].
  rewrite IH, insert_desc_perm. symmetry. apply Permutation_middle.
Qed.

Lemma insert_desc_sorted x l :
  StronglySorted (fun a b => (score_of b <= score_of a)%Z) l ->
  StronglySorted (fun a b => (score_of b <= score_of a)%Z) (insert_desc x l).
Proof.
  induction l as [| y l IH]; intros Hs; simpl.
  - repeat constructor.
  - apply StronglySorted_inv in Hs. destruct Hs as [Hs Hy].
    destruct (Z.ltb_spec (score_of y) (score_of x)) as [Hlt | Hge].
    + constructor; [constructor; assumption |].
      constructor; [lia |].
      eapply Forall_impl; [| exact Hy]. simpl. intros z Hz. lia.
    + constructor; [apply IH; exact Hs |].
      apply Forall_forall. intros z Hz.
      apply (Permutation_in _ (insert_desc_perm x l)) in Hz.
      destruct Hz as [<- | Hz]; [lia |].
      rewrite Forall_forall in Hy. apply Hy. exact Hz.
Qed.

Lemma sort_fold_sorted xs acc :
  StronglySorted (fun a b => (score_of b <= score_of a)%Z) acc ->
  StronglySorted (fun a b => (score_of b <= score_of a)%Z)
    (fold_left (fun acc x => insert_desc x acc) xs acc).
Proof.
  revert acc. induction xs as [| x xs IH]; intros acc Hs; simpl; [exact Hs |].
  apply IH, insert_desc_sorted, Hs.
Qed.

Lemma filter_insert_other (p : pyval * pyval * Z -> bool) x l :
  p x = false -> filter p (insert_desc x l) = filter p l.
Proof.
  intros Hp. induction l as [| y l IH]; simpl; [rewrite Hp; reflexivity |].
  destruct (score_of y <? score_of x)%Z; simpl.
  - rewrite Hp. reflexivity.
  - rewrite IH. reflexivity.
Qed.

Lemma filter_nil_forall {A} (p : A -> bool) l :
  Forall (fun z => p z = false) l -> filter p l = [].
Proof. induction 1; simpl; [reflexivity | rewrite H; assumption]. Qed.

Lemma filter_insert_same k x l :
  score_of x = k ->
  StronglySorted (fun a b => (score_of b <= score_of a)%Z) l ->
  filter (fun e => Z.eqb (score_of e) k) (insert_desc x l) =
  app (filter (fun e => Z.eqb (score_of e) k) l) [x].
Proof.
  intros Hx. induction l as [| y l IH]; intros Hs; simpl.
  - rewrite Hx, Z.eqb_refl. reflexivity.
  - apply StronglySorted_inv in Hs. destruct Hs as [Hs Hy].
    destruct (Z.ltb_spec (score_of y) (score_of x)) as [Hlt | Hge].
    + simpl. rewrite Hx, Z.eqb_refl.
      assert (Hy' : (score_of y =? k)%Z = false) by (apply Z.eqb_neq; lia).
      rewrite Hy'. rewrite filter_nil_forall; [reflexivity |].
      eapply Forall_impl; [| exact Hy]. simpl. intros z Hz. apply Z.eqb_neq. lia.
    + simpl. rewrite (IH Hs). destruct (score_of y =? k)%Z; reflexivity.
Qed.

Lemma sort_fold_stable k xs acc :
  StronglySorted (fun a b => (score_of b <= score_of a)%Z) acc ->
  filter (fun e => Z.eqb (score_of e) k) (fold_left (fun acc x => insert_desc x acc) xs acc) =
  app (filter (fun e => Z.eqb (score_of e) k) acc) (filter (fun e => Z.eqb (score_of e) k) xs).
Proof.
  revert acc. induction xs as [| x xs IH]; intros acc Hs; simpl.
  - rewrite app_nil_r. reflexivity.
  - rewrite IH by (apply insert_desc_sorted; exact Hs).
    destruct (score_of x =? k)%Z eqn:Hx.
    + apply Z.eqb_eq in Hx. rewrite (filter_insert_same k x acc Hx Hs).
      rewrite <- app_assoc. reflexivity.
    + rewrite filter_insert_other by exact Hx. reflexivity.
Qed.

(** The report order is a permutation of the results, sorted by decreasing
    score, and repositories with equal scores keep their original order. *)
Theorem sort_by_score_desc_stable xs :
  Permutation (sort_by_score_desc xs) xs /\
  Sorted (fun a b => (score_of b <= score_of a)%Z) (sort_by_score_desc xs) /\
  (forall k, filter (fun e => Z.eqb (score_of e) k) (sort_by_score_desc xs) =
             filter (fun e => Z.eqb (score_of e) k) xs).
Proof.
  unfold sort_by_score_desc. split; [| split].
  - rewrite sort_fold_perm, app_nil_r. reflexivity.
  - apply StronglySorted_Sorted, sort_fold_sorted. constructor.
  - intros k. rewrite sort_fold_stable by constructor. reflexivity.
Qed.

Lemma truthy_iter_nonempty x items : py_truthy x = true -> py_iter x = Ok items -> items <> [].
Proof.
  destruct x as [| | | | s | l | d]; simpl; intros Ht Hi; try discriminate;
    injection Hi as <-.
  - destruct s; [discriminate | simpl; discriminate].
  - destruct l; [discriminate | discriminate].
  - destruct d; [discriminate | discriminate].
Qed.

Lemma evaluate_candidate_not_unable t n s :
  n <> 0%Z -> evaluate_candidate t n = Ok s -> s <> unable_label.
Proof.
  intros Hn H. unfold evaluate_candidate, py_truediv in H.
  apply Z.eqb_neq in Hn. rewrite Hn in H. cbn [bind] in H.
  destruct (Qle_bool 75 (t / inject_Z n)); [injection H as <-; discriminate |].
  destruct (Qle_bool 50 (t / inject_Z n)); [injection H as <-; discriminate |].
  destruct (Qle_bool 25 (t / inject_Z n)); injection H as <-; discriminate.
Qed.

Lemma display_all_done xs :
  display_all xs = Done tt ->
  Forall (fun e => display_repo_analysis (fst (fst e)) (snd (fst e)) (snd e) = Done tt) xs.
Proof.
  induction xs as [| [[n a] sc] xs IH]; simpl; intros H; [constructor |].
  apply obind_done in H. destruct H as ([] & H1 & H2).
  constructor; [exact H1 | apply IH; exact H2].
Qed.

Lemma st_progress_score (s : Z) :
  st_progress (b64_round (inject_Z s / 100)) =
  if (0 <=? s)%Z && (s <=? 100)%Z then Done tt else Raised StreamlitAPIException.
Proof.
  change (inject_Z s / 100) with (inject_Z s * (1 # 100)).
  destruct (Z.leb_spec 0 s) as [H0 | H0]; cbn [andb].
  - destruct (Z.leb_spec s 100) as [H1 | H1].
    + apply st_progress_unit. rewrite Zle_Qle in H0, H1.
      change (inject_Z 0) with 0 in H0. change (inject_Z 100) with 100 in H1. lra.
    + assert (Hs : inject_Z 101 <= inject_Z s) by (rewrite <- Zle_Qle; lia).
      change (inject_Z 101) with 101 in Hs.
      pose proof (b64_round_mono (101 # 100) (inject_Z s * (1 # 100)) ltac:(lra)) as M.
      assert (E : b64_round (101 # 100) =
                  Fin (match b64_round (101 # 100) with Fin y => y | _ => 0 end) /\
                  1 < match b64_round (101 # 100) with Fin y => y | _ => 0 end)
        by (split; vm_compute; reflexivity).
      destruct E as [E Hlt]. rewrite E in M.
      unfold st_progress.
      destruct (b64_round (inject_Z s * (1 # 100))) as [y | | |]; cbn [fle] in M;
        try contradiction; try reflexivity.
      set (y1 := match b64_round (101 # 100) with Fin y => y | _ => 0 end) in *.
      assert (Hy : ~ y <= 1) by lra. apply Qle_bool_iff_false in Hy.
      rewrite Hy, andb_false_r. reflexivity.
  - assert (Hs : inject_Z s <= inject_Z (-1)) by (rewrite <- Zle_Qle; lia).
    change (inject_Z (-1)) with (-1) in Hs.
    pose proof (b64_round_mono (inject_Z s * (1 # 100)) (-1 # 100) ltac:(lra)) as M.
    assert (E : b64_round (-1 # 100) =
                Fin (match b64_round (-1 # 100) with Fin y => y | _ => 0 end) /\
                match b64_round (-1 # 100) with Fin y => y | _ => 0 end < 0)
      by (split; vm_compute; reflexivity).
    destruct E as [E Hlt]. rewrite E in M.
    set (y1 := match b64_round (-1 # 100) with Fin y => y | _ => 0 end) in *.
    unfold st_progress.
    destruct (b64_round (inject_Z s * (1 # 100))) as [y | | |]; cbn [fle] in M;
      try contradiction; try reflexivity.
    assert (Hy : ~ 0 <= y) by lra. apply Qle_bool_iff_false in Hy.
    rewrite Hy. reflexivity.
Qed.

Lemma display_progress n a s :
  display_repo_analysis n a s = Done tt -> (0 <= s <= 100)%Z.
Proof.
  unfold display_repo_analysis. intros H. done_inv.
  match goal with
  | Hp : st_progress _ = Done _ |- _ =>
      rewrite st_progress_score in Hp;
      destruct ((0 <=? s)%Z && (s <=? 100)%Z) eqn:E; [| discriminate]
  end.
  apply andb_true_iff in E. rewrite !Z.leb_le in E. exact E.
Qed.

Lemma main_report_done_inv http_get py_str u llm jd o :
  main_report http_get py_str u llm jd = Done o ->
  exists results total avg suitability,
    analyze_github_repos http_get py_str u llm jd = Done (AgrPair results total) /\
    results <> [] /\
    py_round (b64_round (inject_Z total / inject_Z (Z.of_nat (length results)))) = Ok avg /\
    evaluate_candidate (inject_Z total) (Z.of_nat (length results)) = Ok suitability /\
    display_all (sort_by_score_desc results) = Done tt /\
    o = MainReport (Z.of_nat (length results)) avg suitability (sort_by_score_desc results).
Proof.
  unfold main_report. intros H.
  apply obind_done in H. destruct H as (out & Ha & H). cbv beta in H.
  destruct out as [| results total]; [discriminate |].
  pose proof (analyze_github_repos_pair _ _ _ _ _ _ _ Ha)
    as (repos & items & _ & Ht & Hi & Hf & _ & _).
  assert (Hne : results <> []).
  { intros ->. apply Forall2_length in Hf. simpl in Hf.
    destruct items; [| discriminate]. eapply truthy_iter_nonempty; eauto. }
  destruct (length results) eqn:Hl; [destruct results; [contradiction | discriminate] |].
  cbn [Nat.eqb] in H. cbv zeta in H.
  assert (Hpos : (0 <? Z.of_nat (S n))%Z = true) by (apply Z.ltb_lt; lia).
  rewrite Hpos in H.
  apply obind_done in H. destruct H as (avg & Havg & H). cbv beta in H.
  apply obind_done in H. destruct H as (s & Hs & H). cbv beta in H.
  apply obind_done in H. destruct H as ([] & Hd & H). cbv beta in H.
  apply done_inj in H.
  apply lift_done in Havg, Hs.
  exists results, total, avg, s. rewrite Hl. repeat split; auto; congruence.
Qed.

(** Whenever [main] completes its report, at least one repository was
    analysed, the count matches the sorted list, and the suitability is never
    the "no repositories" message. *)
Theorem main_report_evaluates_some_repos http_get py_str u llm jd o :
  main_report http_get py_str u llm jd = Done o ->
  exists num_repos avg_score suitability sorted_analysis,
    o = MainReport num_repos avg_score suitability sorted_analysis /\
    (1 <= num_repos)%Z /\ num_repos = Z.of_nat (length sorted_analysis) /\
    suitability <> unable_label.
Proof.
  intros H. apply main_report_done_inv in H.
  destruct H as (results & total & avg & s & _ & Hne & _ & Hs & _ & ->).
  exists (Z.of_nat (length results)), avg, s, (sort_by_score_desc results).
  assert (Hlen : (1 <= length results)%nat) by (destruct results; [contradiction | simpl; lia]).
  repeat split.
  - lia.
  - unfold sort_by_score_desc. rewrite (Permutation_length (sort_fold_perm results [])).
    rewrite app_nil_r. reflexivity.
  - eapply evaluate_candidate_not_unable; [| exact Hs]. lia.
Qed.

(** Whenever [main] completes its report, every repository score it shows lies
    in [0, 100]. *)
Theorem main_report_scores_in_range http_get py_str u llm jd num avg suitability sorted :
  main_report http_get py_str u llm jd = Done (MainReport num avg suitability sorted) ->
  Forall (fun e => (0 <= score_of e <= 100)%Z) sorted.
Proof.
  intros H. apply main_report_done_inv in H.
  destruct H as (results & total & avg' & s & _ & _ & _ & _ & Hd & Ho).
  injection Ho as _ _ _ ->.
  apply display_all_done in Hd.
  eapply Forall_impl; [| exact Hd]. intros e He. apply display_progress in He. exact He.
Qed.

Lemma sum_scores_bounds (l : list (pyval * pyval * Z)) :
  Forall (fun e => (0 <= score_of e <= 100)%Z) l ->
  (0 <= fold_right Z.add 0 (map snd l) <= 100 * Z.of_nat (length l))%Z.
Proof.
  induction 1 as [| e l He _ IH]; simpl; [lia |].
  unfold score_of in He. lia.
Qed.

(** Whenever [main] completes its report, the average score it shows lies in
    [0, 100]. *)
Theorem main_report_average_in_range http_get py_str u llm jd num avg suitability sorted :
  main_report http_get py_str u llm jd = Done (MainReport num avg suitability sorted) ->
  (0 <= avg <= 100)%Z.
Proof.
  intros H. apply main_report_done_inv in H.
  destruct H as (results & total & avg' & s & Ha & Hne & Havg & _ & Hd & Ho).
  injection Ho as _ <- _ _.
  apply analyze_github_repos_pair in Ha.
  destruct Ha as (_ & _ & _ & _ & _ & _ & _ & ->).
  apply display_all_done in Hd.
  assert (Hr : Forall (fun e => (0 <= score_of e <= 100)%Z) results).
  { apply Forall_forall. intros e Hin.
    assert (Hin' : In e (sort_by_score_desc results)).
    { unfold sort_by_score_desc. apply (Permutation_in _ (Permutation_sym (sort_fold_perm results []))).
      rewrite app_nil_r. exact Hin. }
    rewrite Forall_forall in Hd. apply Hd in Hin'. apply display_progress in Hin'. exact Hin'. }
  apply sum_scores_bounds in Hr.
  set (t := fold_right Z.add 0%Z (map snd results)) in *.
  set (m := Z.of_nat (length results)) in *.
  assert (Hm : (1 <= m)%Z) by (unfold m; destruct results; [contradiction | simpl; lia]).
  assert (H0 : 0 <= inject_Z t / inject_Z m).
  { apply Qle_shift_div_l; [change 0 with (inject_Z 0); rewrite <- Zlt_Qlt; lia |].
    rewrite Qmult_0_l. change 0 with (inject_Z 0). rewrite <- Zle_Qle. lia. }
  assert (H100 : inject_Z t / inject_Z m <= 100).
  { apply Qle_shift_div_r; [change 0 with (inject_Z 0); rewrite <- Zlt_Qlt; lia |].
    change (100 * inject_Z m) with (inject_Z 100 * inject_Z m).
    rewrite <- inject_Z_mult, <- Zle_Qle. lia. }
  destruct (b64_round_between (inject_Z t / inject_Z m) 0 100 eq_refl
              ltac:(vm_compute; reflexivity) (conj H0 H100)) as (y & Ey & Hy).
  rewrite Ey in Havg. cbn [py_round] in Havg. injection Havg as <-.
  apply round_half_even_bounds; change (inject_Z 0) with 0; change (inject_Z 100) with 100;
    lra.
Qed.

Lemma py_str_list_map l : py_str_list (map PStr l) = Ok l.
Proof. induction l as [| s l IH]; simpl; [reflexivity | rewrite IH; reflexivity]. Qed.

Lemma py_join_iter_strs sep l : py_join_iter sep (PList (map PStr l)) = Ok (py_join sep l).
Proof. unfold py_join_iter. simpl. rewrite py_str_list_map. reflexivity. Qed.

Lemma py_capitalize_str s : exists t, py_capitalize (PStr s) = Ok t.
Proof. destruct s; eexists; reflexivity. Qed.

(** On an analysis whose fields are well formed, [display_repo_analysis]
    succeeds exactly when the score lies in [0, 100] and raises Streamlit's
    range error otherwise. *)
Theorem display_repo_analysis_progress name d (ls ts als : list string) cx act s :
  dict_lookup "languages" d = Some (PList (map PStr ls)) ->
  dict_lookup "tech_stack" d = Some (PList (map PStr ts)) ->
  dict_lookup "algorithms" d = Some (PList (map PStr als)) ->
  dict_lookup "complexity" d = Some (PStr cx) ->
  dict_lookup "commit_activity" d = Some (PStr act) ->
  (dict_lookup "jd_match_reasons" d = None \/
   exists rs, dict_lookup "jd_match_reasons" d = Some (PList rs)) ->
  display_repo_analysis name (PDict d) s =
    if (0 <=? s)%Z && (s <=? 100)%Z then Done tt else Raised StreamlitAPIException.
Proof.
  intros H1 H2 H3 H4 H5 H6.
  unfold display_repo_analysis. cbn [py_getitem py_get].
  rewrite H1, H2, H3, H4, H5. cbn [lift obind].
  rewrite py_join_iter_strs. cbn [lift obind].
  destruct (py_truthy (PList (map PStr ts)));
    [rewrite py_join_iter_strs |]; cbn [lift obind];
  (destruct (py_truthy (PList (map PStr als)));
    [rewrite py_join_iter_strs |]; cbn [lift obind]);
  destruct (py_capitalize_str cx) as [c1 E1]; rewrite E1; cbn [lift obind];
  destruct (py_capitalize_str act) as [c2 E2]; rewrite E2; cbn [lift obind];
  destruct (dict_lookup "jd_match_score" d); cbn [lift obind];
  rewrite st_progress_score;
  destruct ((0 <=? s)%Z && (s <=? 100)%Z); cbn [obind]; try reflexivity;
  destruct H6 as [H6 | [rs H6]]; rewrite H6; cbn [lift obind py_truthy];
  try reflexivity;
  destruct (negb (Nat.eqb (length rs) 0)); reflexivity.
Qed.

(** ** Witnesses on the sample account *)

Lemma get_repo_details_latest_five_witness :
  get_repo_details sample_http sample_str "alice" "proj" =
    Done ("# proj", [PStr "a"; PStr "b"; PStr "c"; PStr "d"; PStr "e"],
          [PStr "app.py"], [PStr "Python"; PStr "Shell"]) /\
  (length [PStr "a"; PStr "b"; PStr "c"; PStr "d"; PStr "e"] <= 5)%nat.
Proof.
  split; [vm_compute; reflexivity |].
  apply (get_repo_details_latest_five sample_http sample_str "alice" "proj" "# proj"
           _ [PStr "app.py"] [PStr "Python"; PStr "Shell"]).
  vm_compute. reflexivity.
Defined.

Lemma get_repo_details_commit_messages_witness :
  [PStr "a"; PStr "b"; PStr "c"; PStr "d"; PStr "e"] =
  firstn 5 (map PStr ["a"; "b"; "c"; "d"; "e"; "f"]).
Proof.
  apply (get_repo_details_commit_messages sample_http sample_str "alice" "proj"
           (mk_response 200 (Some (PList (map sample_commit ["a"; "b"; "c"; "d"; "e"; "f"])))
              EmptyString)
           (map sample_commit ["a"; "b"; "c"; "d"; "e"; "f"])
           (map PStr ["a"; "b"; "c"; "d"; "e"; "f"])
           "# proj" _ [PStr "app.py"] [PStr "Python"; PStr "Shell"]).
  - vm_compute. reflexivity.
  - reflexivity.
  - reflexivity.
  - simpl. repeat (constructor; [do 2 eexists; split; [reflexivity | split; reflexivity] |]).
    constructor.
  - vm_compute. reflexivity.
Defined.

Lemma get_repo_details_non_200_defaults_witness :
  get_repo_details sample_http sample_str "alice" "tool" = Done (EmptyString, [], [], []) /\
  ((forall resp, sample_http (repo_url "alice" "tool" "readme") true = Some resp ->
      status_code resp <> 200%Z -> EmptyString = EmptyString) /\
   (forall resp, sample_http (repo_url "alice" "tool" "commits") true = Some resp ->
      status_code resp <> 200%Z -> @nil pyval = []) /\
   (forall resp, sample_http (repo_url "alice" "tool" "contents") true = Some resp ->
      status_code resp <> 200%Z -> @nil pyval = []) /\
   (forall resp, sample_http (repo_url "alice" "tool" "languages") true = Some resp ->
      status_code resp <> 200%Z -> @nil pyval = [])).
Proof.
  split; [vm_compute; reflexivity |].
  apply (get_repo_details_non_200_defaults sample_http sample_str "alice" "tool").
  vm_compute. reflexivity.
Defined.

Lemma get_repo_details_files_and_languages_witness :
  [PStr "app.py"] = [PStr "app.py"] /\
  [PStr "Python"; PStr "Shell"] = map (fun kv => PStr (fst kv)) [("Python", PInt 1000); ("Shell", PInt 20)].
Proof.
  apply (get_repo_details_files_and_languages sample_http sample_str "alice" "proj"
           "# proj" [PStr "a"; PStr "b"; PStr "c"; PStr "d"; PStr "e"] _ _
           (mk_response 200 (Some (PList [PDict [("name", PStr "app.py")]])) EmptyString)
           [PDict [("name", PStr "app.py")]] [PStr "app.py"]
           (mk_response 200 (Some (PDict [("Python", PInt 1000); ("Shell", PInt 20)])) EmptyString)
           [("Python", PInt 1000); ("Shell", PInt 20)]).
  - vm_compute. reflexivity.
  - reflexivity.
  - reflexivity.
  - constructor; [eexists; split; reflexivity | constructor].
  - vm_compute. reflexivity.
  - reflexivity.
  - reflexivity.
  - vm_compute. reflexivity.
Defined.

Lemma analyze_non_string_item_default_witness :
  In (PInt 3) ([PInt 3] ++ [] ++ []) /\
  analyze_repo_values "# proj" [PInt 3] [] [] "Python developer" sample_llm = default_analysis /\
  calculate_repo_score
    (analyze_repo_values "# proj" [PInt 3] [] [] "Python developer" sample_llm) = Ok 0%Z.
Proof.
  split; [simpl; left; reflexivity |].
  apply (analyze_non_string_item_default "# proj" [PInt 3] [] [] "Python developer"
           sample_llm (PInt 3)).
  - simpl. left. reflexivity.
  - intros s. discriminate.
Defined.

Lemma analyze_github_repos_totals_witness :
  analyze_github_repos sample_http sample_str "alice" sample_llm "Python developer" =
    Done (AgrPair sample_results 146) /\
  exists repos items,
    get_github_repos sample_http "alice" = Done repos /\ py_iter repos = Ok items /\
    Forall2 (fun repo e =>
      py_getitem repo "name" = Ok (fst (fst e)) /\
      exists rd cm fs ls,
        get_repo_details sample_http sample_str "alice" (sample_str (fst (fst e))) =
          Done (rd, cm, fs, ls) /\
        snd (fst e) = analyze_repo_values rd fs cm ls "Python developer" sample_llm)
      items sample_results /\
    Forall (fun e => calculate_repo_score (snd (fst e)) = Ok (snd e)) sample_results /\
    146%Z = fold_right Z.add 0%Z (map snd sample_results).
Proof.
  split; [vm_compute; reflexivity |].
  apply (analyze_github_repos_totals sample_http sample_str "alice" sample_llm
           "Python developer" sample_results 146).
  vm_compute. reflexivity.
Defined.

Lemma main_report_no_repos_raises_witness :
  sample_http ("https://api.github.com/users/" ++ "bob" ++ "/repos") true =
    Some (mk_response 404 (Some (PDict [("message", PStr "Not Found")])) EmptyString) /\
  main_report sample_http sample_str "bob" sample_llm "Python developer" = Raised (PyExc ValueError).
Proof.
  split; [vm_compute; reflexivity |].
  apply (main_report_no_repos_raises sample_http sample_str "bob" sample_llm "Python developer"
           (mk_response 404 (Some (PDict [("message", PStr "Not Found")])) EmptyString)).
  - vm_compute. reflexivity.
  - left. simpl. discriminate.
Defined.

Lemma main_report_evaluates_some_repos_witness :
  exists num_repos avg_score suitability sorted_analysis,
    MainReport 2 73 "Moderately Suitable" sample_results =
      MainReport num_repos avg_score suitability sorted_analysis /\
    (1 <= num_repos)%Z /\ num_repos = Z.of_nat (length sorted_analysis) /\
    suitability <> unable_label.
Proof.
  apply (main_report_evaluates_some_repos sample_http sample_str "alice" sample_llm
           "Python developer").
  vm_compute. reflexivity.
Defined.

Lemma main_report_scores_in_range_witness :
  Forall (fun e => (0 <= score_of e <= 100)%Z) sample_results.
Proof.
  apply (main_report_scores_in_range sample_http sample_str "alice" sample_llm
           "Python developer" 2 73 "Moderately Suitable").
  vm_compute. reflexivity.
Defined.

Lemma main_report_average_in_range_witness : (0 <= 73 <= 100)%Z.
Proof.
  apply (main_report_average_in_range sample_http sample_str "alice" sample_llm
           "Python developer" 2 73 "Moderately Suitable" sample_results).
  vm_compute. reflexivity.
Defined.

Lemma display_repo_analysis_progress_witness :
  display_repo_analysis (PStr "proj") (PDict sample_analysis_dict) 73 = Done tt /\
  display_repo_analysis (PStr "proj") (PDict sample_analysis_dict) 400 =
    Raised StreamlitAPIException.
Proof.
  split.
  - apply (display_repo_analysis_progress (PStr "proj") sample_analysis_dict
             ["Python"] [] [] "high" "active" 73);
      try reflexivity. left. reflexivity.
  - apply (display_repo_analysis_progress (PStr "proj") sample_analysis_dict
             ["Python"] [] [] "high" "active" 400);
      try reflexivity. left. reflexivity.
Defined.
